(** * Vendor performance analytics: the table-building pipeline

    A shallow embedding of [build_final_tables.py].  The script drives SQLite
    through a fixed sequence of [DROP TABLE] / [CREATE TABLE ... AS SELECT]
    statements; every statement is embedded here as a function from the
    tables it reads to the table it creates, and [main] as a state-and-error
    computation over the database.

    Modelling conventions.
    - A table is the list of its rows.  SQL leaves the row order of an
      unordered [SELECT] open; the embedding lists groups in the order in
      which their keys first occur.  The properties below speak of
      membership and of exact sums, which do not depend on that order.
    - A nullable SQL scalar is an [option]: [None] is [NULL].
    - Numbers are exact rationals ([Qc]); SQLite's INTEGER and REAL are both
      embedded there.  Every division in the script is forced to REAL
      division ([* 1.0], [100.0 *]), and SQLite evaluates [x / 0] to
      [NULL].
    - What the exact numbers leave out.  A REAL is a binary64 number and
      every operation on it is rounded, so a stored REAL is the value of
      the script's own expression only up to rounding, a REAL [SUM]
      depends on the order in which the rows are visited, and identities
      between different expressions (the sum of differences against the
      difference of sums) hold only in exact arithmetic.  The module
      [Real64] embeds the expressions concerned over binary64 and shows
      where a property of the exact numbers fails for the stored ones.
      An INTEGER [SUM] beyond 64 bits raises "integer overflow"; the
      embedded numbers are unbounded, so the embedding describes the runs
      in which no integer sum overflows.
    - TEXT is compared bytewise (SQLite's BINARY collation).

    The repository's second script, [todo.py], is embedded in the module
    [Todo] and treated in the last part of the file. *)

From Stdlib Require Import QArith Qcanon ZArith String List OrderedTypeEx.
From Stdlib Require Import Floats.SpecFloat.
From stdpp Require Import base decidable option list numbers strings gmap
  pretty.

Local Open Scope Qc_scope.

(** ** SQL scalars and aggregates *)

Module Sql.

Definition num := option Qc.

(** An integer or round decimal literal ([0], [1.0], [100.0]). *)
Definition qc (z : Z) : Qc := Q2Qc (inject_Z z).

Definition lit (z : Z) : num := Some (qc z).

Definition lift2 (f : Qc → Qc → Qc) (a b : num) : num :=
  match a, b with
  | Some x, Some y => Some (f x y)
  | _, _ => None
  end.

(** Arithmetic is exact, and [NULL] propagates.  What SQLite stores for a
    REAL result is this value rounded to binary64 (see [Real64]). *)
Definition add : num → num → num := lift2 Qcplus.
Definition sub : num → num → num := lift2 Qcminus.
Definition mul : num → num → num := lift2 Qcmult.

(** REAL division, not rounded; a zero divisor gives [NULL]. *)
Definition div (a b : num) : num :=
  match a, b with
  | Some x, Some y => if decide (y = 0) then None else Some (x / y)
  | _, _ => None
  end.

(** Comparisons as a [WHEN] or [ON] clause sees them: a comparison with
    [NULL] is not true. *)
Definition gt (a b : num) : bool :=
  match a, b with
  | Some x, Some y => bool_decide (y < x)
  | _, _ => false
  end.

Definition lt (a b : num) : bool := gt b a.

Definition le (a b : num) : bool :=
  match a, b with
  | Some x, Some y => bool_decide (x ≤ y)
  | _, _ => false
  end.

Definition eq `{EqDecision A} (a b : option A) : bool :=
  match a, b with
  | Some x, Some y => bool_decide (x = y)
  | _, _ => false
  end.

(** [COALESCE(a, d)] *)
Definition coalesce {A} (a d : option A) : option A :=
  match a with
  | Some _ => a
  | None => d
  end.

(** The non-[NULL] values of a column. *)
Definition non_null {A} (l : list (option A)) : list A := omap id l.

Definition total (l : list Qc) : Qc := foldr Qcplus 0 l.

(** [SUM]: [NULL]s are skipped; [NULL] when nothing is left.  The sum is
    exact, so it is the same in whatever order the rows are visited;
    [Real64.sum] is the rounded running total of a REAL column. *)
Definition sum (l : list num) : num :=
  match non_null l with
  | [] => None
  | vs => Some (total vs)
  end.

(** The sum of two partial [SUM]s. *)
Definition plus_skip (a b : num) : num :=
  match a, b with
  | Some x, Some y => Some (x + y)
  | Some x, None => Some x
  | None, _ => b
  end.

(** TEXT order and [MAX] over a TEXT column ([NULL]s are skipped). *)
Definition text_max (a b : string) : string :=
  if String.leb a b then b else a.

(** SQLite's order on a nullable TEXT column: [NULL] sorts first. *)
Definition text_le (a b : option string) : bool :=
  match a, b with
  | None, _ => true
  | Some _, None => false
  | Some x, Some y => String.leb x y
  end.

Definition max_text (l : list (option string)) : option string :=
  match non_null l with
  | [] => None
  | v :: vs => Some (foldl text_max v vs)
  end.

(** [COUNT(DISTINCT c)] *)
Definition count_distinct `{EqDecision A} (l : list (option A)) : num :=
  lit (Z.of_nat (length (remove_dups (non_null l)))).

End Sql.

Abbreviation num := Sql.num.

(** ** Relational operators *)

Section Relational.
Context {A B : Type}.

(** [FROM l JOIN r ON on] *)
Definition inner_join (on : A → B → bool) (l : list A) (r : list B)
  : list (A * B) :=
  a ← l; (λ b, (a, b)) <$> filter (λ b, on a b = true) r.

(** [FROM l LEFT JOIN r ON on]: an unmatched left row is kept once, with
    the right side [NULL]. *)
Definition left_join (on : A → B → bool) (l : list A) (r : list B)
  : list (A * option B) :=
  a ← l;
  match filter (λ b, on a b = true) r with
  | [] => [(a, None)]
  | ms => (λ b, (a, Some b)) <$> ms
  end.

(** [GROUP BY key]: the distinct keys, each with the rows that carry it.
    [NULL] keys form a group of their own, as in SQL. *)
Definition group_by `{EqDecision K} (key : A → K) (l : list A)
  : list (K * list A) :=
  (λ k, (k, filter (λ a, key a = k) l)) <$> remove_dups (key <$> l).

End Relational.

(** A column of the right side of a [LEFT JOIN]: [NULL] on unmatched rows. *)
Definition col {B C} (f : B → option C) (o : option B) : option C := o ≫= f.

(** ** Base tables *)

Module SaleRecord.
Record row := {
  InventoryId : option string;
  Brand : option Z;
  SalesQuantity : num;
  SalesDollars : num
}.
End SaleRecord.

Module PurchaseRecord.
Record row := {
  InventoryId : option string;
  VendorNumber : option Z;
  VendorName : option string;
  Brand : option Z;
  Quantity : num;
  PurchasePrice : num
}.
End PurchaseRecord.

Module VendorInvoiceRecord.
Record row := {
  VendorNumber : option Z;
  Quantity : num;
  Dollars : num;
  Freight : num
}.
End VendorInvoiceRecord.

(** ** [build_vendor_sales_summary] *)

Module SalesAgg.
Record row := {
  VendorNumber : option Z;
  VendorName : option string;
  Brand : option Z;
  TotalSalesQuantity : num;
  TotalSalesDollars : num
}.
End SalesAgg.

Module BrandPurch.
Record row := {
  VendorNumber : option Z;
  Brand : option Z;
  BrandPurchaseQuantity : num;
  BrandPurchaseDollars : num
}.
End BrandPurch.

Module BpVendorTot.
Record row := {
  VendorNumber : option Z;
  VendorBrandPurchDollars : num
}.
End BpVendorTot.

Module Vi.
Record row := {
  VendorNumber : option Z;
  InvoicePurchaseQuantity : num;
  InvoicePurchaseDollars : num;
  Freight : num
}.
End Vi.

Module Joined.
Record row := {
  VendorNumber : option Z;
  VendorName : option string;
  Brand : option Z;
  TotalSalesQuantity : num;
  TotalSalesDollars : num;
  TotalPurchaseQuantity : num;
  TotalPurchaseDollars : num;
  FreightCost : num
}.
End Joined.

(** A row of [vendor_sales_summary] (the spec's BrandSalesSummary). *)
Module BrandSalesSummary.
Record row := {
  VendorNumber : option Z;
  VendorName : option string;
  Brand : option Z;
  TotalSalesQuantity : num;
  TotalSalesDollars : num;
  TotalPurchaseQuantity : num;
  TotalPurchaseDollars : num;
  FreightCost : num;
  GrossProfit : num;
  ProfitMargin : num
}.
End BrandSalesSummary.

Definition sales_agg (sales : list SaleRecord.row)
    (purchases : list PurchaseRecord.row) : list SalesAgg.row :=
  (λ g : (option Z * option string * option Z)
         * list (SaleRecord.row * PurchaseRecord.row),
     {| SalesAgg.VendorNumber := g.1.1.1;
        SalesAgg.VendorName := g.1.1.2;
        SalesAgg.Brand := g.1.2;
        SalesAgg.TotalSalesQuantity :=
          Sql.sum ((λ sp, SaleRecord.SalesQuantity sp.1) <$> g.2);
        SalesAgg.TotalSalesDollars :=
          Sql.sum ((λ sp, SaleRecord.SalesDollars sp.1) <$> g.2) |})
  <$> group_by
        (λ sp : SaleRecord.row * PurchaseRecord.row,
           (PurchaseRecord.VendorNumber sp.2, PurchaseRecord.VendorName sp.2,
            SaleRecord.Brand sp.1))
        (inner_join
           (λ s p, Sql.eq (PurchaseRecord.InventoryId p)
                          (SaleRecord.InventoryId s))
           sales purchases).

Definition brand_purch (purchases : list PurchaseRecord.row)
  : list BrandPurch.row :=
  (λ g : (option Z * option Z) * list PurchaseRecord.row,
     {| BrandPurch.VendorNumber := g.1.1;
        BrandPurch.Brand := g.1.2;
        BrandPurch.BrandPurchaseQuantity :=
          Sql.sum (PurchaseRecord.Quantity <$> g.2);
        BrandPurch.BrandPurchaseDollars :=
          Sql.sum ((λ p, Sql.mul (PurchaseRecord.PurchasePrice p)
                                 (PurchaseRecord.Quantity p)) <$> g.2) |})
  <$> group_by
        (λ p, (PurchaseRecord.VendorNumber p, PurchaseRecord.Brand p))
        purchases.

Definition bp_vendor_tot (bp : list BrandPurch.row) : list BpVendorTot.row :=
  (λ g : option Z * list BrandPurch.row,
     {| BpVendorTot.VendorNumber := g.1;
        BpVendorTot.VendorBrandPurchDollars :=
          Sql.sum (BrandPurch.BrandPurchaseDollars <$> g.2) |})
  <$> group_by BrandPurch.VendorNumber bp.

Definition vi (vendor_invoice : list VendorInvoiceRecord.row)
  : list Vi.row :=
  (λ g : option Z * list VendorInvoiceRecord.row,
     {| Vi.VendorNumber := g.1;
        Vi.InvoicePurchaseQuantity :=
          Sql.sum (VendorInvoiceRecord.Quantity <$> g.2);
        Vi.InvoicePurchaseDollars :=
          Sql.sum (VendorInvoiceRecord.Dollars <$> g.2);
        Vi.Freight := Sql.sum (VendorInvoiceRecord.Freight <$> g.2) |})
  <$> group_by VendorInvoiceRecord.VendorNumber vendor_invoice.

(** The [CASE] that allocates freight, on one row of the three-way
    [LEFT JOIN]. *)
Definition freight_case (bp : option BrandPurch.row)
    (t : option BpVendorTot.row) (v : option Vi.row) : num :=
  if Sql.gt (Sql.coalesce (col Vi.Freight v) (Sql.lit 0)) (Sql.lit 0)
     && Sql.gt (Sql.coalesce (col BpVendorTot.VendorBrandPurchDollars t)
                             (Sql.lit 0)) (Sql.lit 0)
  then Sql.div
         (Sql.mul
            (Sql.mul (col Vi.Freight v)
               (Sql.coalesce (col BrandPurch.BrandPurchaseDollars bp)
                             (Sql.lit 0)))
            (Sql.lit 1))
         (col BpVendorTot.VendorBrandPurchDollars t)
  else Sql.lit 0.

Definition joined (sa : list SalesAgg.row) (bp : list BrandPurch.row)
    (tot : list BpVendorTot.row) (inv : list Vi.row) : list Joined.row :=
  (λ j : SalesAgg.row * option BrandPurch.row * option BpVendorTot.row
         * option Vi.row,
     let s := j.1.1.1 in
     {| Joined.VendorNumber := SalesAgg.VendorNumber s;
        Joined.VendorName := SalesAgg.VendorName s;
        Joined.Brand := SalesAgg.Brand s;
        Joined.TotalSalesQuantity :=
          Sql.coalesce (SalesAgg.TotalSalesQuantity s) (Sql.lit 0);
        Joined.TotalSalesDollars :=
          Sql.coalesce (SalesAgg.TotalSalesDollars s) (Sql.lit 0);
        Joined.TotalPurchaseQuantity :=
          Sql.coalesce (col BrandPurch.BrandPurchaseQuantity j.1.1.2)
                       (Sql.lit 0);
        Joined.TotalPurchaseDollars :=
          Sql.coalesce (col BrandPurch.BrandPurchaseDollars j.1.1.2)
                       (Sql.lit 0);
        Joined.FreightCost := freight_case j.1.1.2 j.1.2 j.2 |})
  <$> left_join
        (λ j v, Sql.eq (Vi.VendorNumber v) (SalesAgg.VendorNumber j.1.1))
        (left_join
           (λ j t, Sql.eq (BpVendorTot.VendorNumber t)
                          (SalesAgg.VendorNumber j.1))
           (left_join
              (λ s b, Sql.eq (BrandPurch.VendorNumber b)
                             (SalesAgg.VendorNumber s)
                      && Sql.eq (BrandPurch.Brand b) (SalesAgg.Brand s))
              sa bp)
           tot)
        inv.

(** The final [SELECT *, ... FROM joined]. *)
Definition summary_row (j : Joined.row) : BrandSalesSummary.row :=
  let gp := Sql.sub (Sql.sub (Joined.TotalSalesDollars j)
                             (Joined.TotalPurchaseDollars j))
                    (Joined.FreightCost j) in
  {| BrandSalesSummary.VendorNumber := Joined.VendorNumber j;
     BrandSalesSummary.VendorName := Joined.VendorName j;
     BrandSalesSummary.Brand := Joined.Brand j;
     BrandSalesSummary.TotalSalesQuantity := Joined.TotalSalesQuantity j;
     BrandSalesSummary.TotalSalesDollars := Joined.TotalSalesDollars j;
     BrandSalesSummary.TotalPurchaseQuantity := Joined.TotalPurchaseQuantity j;
     BrandSalesSummary.TotalPurchaseDollars := Joined.TotalPurchaseDollars j;
     BrandSalesSummary.FreightCost := Joined.FreightCost j;
     BrandSalesSummary.GrossProfit := gp;
     BrandSalesSummary.ProfitMargin :=
       if Sql.gt (Joined.TotalSalesDollars j) (Sql.lit 0)
       then Sql.div (Sql.mul (Sql.lit 100) gp) (Joined.TotalSalesDollars j)
       else Sql.lit 0 |}.

Definition select_vendor_sales_summary (sales : list SaleRecord.row)
    (purchases : list PurchaseRecord.row)
    (vendor_invoice : list VendorInvoiceRecord.row)
  : list BrandSalesSummary.row :=
  let bp := brand_purch purchases in
  summary_row
  <$> joined (sales_agg sales purchases) bp (bp_vendor_tot bp)
             (vi vendor_invoice).

(** ** [build_vendor_rollup] *)

Module VendorRollup.
Record row := {
  VendorNumber : option Z;
  VendorName : option string;
  TotalSalesDol_in_summary : num;
  TotalSalesQty : num;
  TotalPurchaseDol : num;
  TotalPurchaseQty : num;
  FreightCost : num;
  GrossProfit : num;
  ProfitMargin : num;
  BrandCount : num
}.
End VendorRollup.

Definition select_vendor_summary_by_vendor
    (vss : list BrandSalesSummary.row) : list VendorRollup.row :=
  (λ g : option Z * list BrandSalesSummary.row,
     let sales := Sql.sum (BrandSalesSummary.TotalSalesDollars <$> g.2) in
     let purch := Sql.sum (BrandSalesSummary.TotalPurchaseDollars <$> g.2) in
     let freight := Sql.sum (BrandSalesSummary.FreightCost <$> g.2) in
     {| VendorRollup.VendorNumber := g.1;
        VendorRollup.VendorName :=
          Sql.max_text (BrandSalesSummary.VendorName <$> g.2);
        VendorRollup.TotalSalesDol_in_summary := sales;
        VendorRollup.TotalSalesQty :=
          Sql.sum (BrandSalesSummary.TotalSalesQuantity <$> g.2);
        VendorRollup.TotalPurchaseDol := purch;
        VendorRollup.TotalPurchaseQty :=
          Sql.sum (BrandSalesSummary.TotalPurchaseQuantity <$> g.2);
        VendorRollup.FreightCost := freight;
        VendorRollup.GrossProfit :=
          Sql.sum ((λ r, Sql.sub
                           (Sql.sub (BrandSalesSummary.TotalSalesDollars r)
                                    (BrandSalesSummary.TotalPurchaseDollars r))
                           (BrandSalesSummary.FreightCost r)) <$> g.2);
        VendorRollup.ProfitMargin :=
          if Sql.gt sales (Sql.lit 0)
          then Sql.div
                 (Sql.mul (Sql.lit 100) (Sql.sub (Sql.sub sales purch) freight))
                 sales
          else Sql.lit 0;
        VendorRollup.BrandCount :=
          Sql.count_distinct (BrandSalesSummary.Brand <$> g.2) |})
  <$> group_by BrandSalesSummary.VendorNumber vss.

(** ** [build_spend_and_risk] *)

Module SpendByVendor.
Record row := {
  VendorNumber : option Z;
  TotalPurchaseDollars : num;
  TotalSalesDollars : num
}.
End SpendByVendor.

Module RiskFlags.
Record row := {
  VendorNumber : option Z;
  neg_SalesQty : num;
  neg_SalesDol : num;
  neg_PurchQty : num;
  neg_PurchDol : num;
  neg_Freight : num
}.
End RiskFlags.

Definition select_spend_by_vendor
    (vendor_invoice : list VendorInvoiceRecord.row)
    (vss : list BrandSalesSummary.row) : list SpendByVendor.row :=
  (λ g : option Z * list VendorInvoiceRecord.row,
     {| SpendByVendor.VendorNumber := g.1;
        SpendByVendor.TotalPurchaseDollars :=
          Sql.sum (VendorInvoiceRecord.Dollars <$> g.2);
        SpendByVendor.TotalSalesDollars :=
          Sql.coalesce
            (Sql.sum
               (BrandSalesSummary.TotalSalesDollars
                <$> filter
                      (λ s, Sql.eq (BrandSalesSummary.VendorNumber s) g.1
                            = true)
                      vss))
            (Sql.lit 0) |})
  <$> group_by VendorInvoiceRecord.VendorNumber vendor_invoice.

(** [CASE WHEN x < 0 THEN 1 ELSE 0 END] *)
Definition neg_flag (x : num) : num :=
  if Sql.lt x (Sql.lit 0) then Sql.lit 1 else Sql.lit 0.

Definition select_vendor_risk_flags (vss : list BrandSalesSummary.row)
  : list RiskFlags.row :=
  (λ g : option Z * list BrandSalesSummary.row,
     let count (f : BrandSalesSummary.row → num) :=
       Sql.sum ((λ r, neg_flag (f r)) <$> g.2) in
     {| RiskFlags.VendorNumber := g.1;
        RiskFlags.neg_SalesQty := count BrandSalesSummary.TotalSalesQuantity;
        RiskFlags.neg_SalesDol := count BrandSalesSummary.TotalSalesDollars;
        RiskFlags.neg_PurchQty :=
          count BrandSalesSummary.TotalPurchaseQuantity;
        RiskFlags.neg_PurchDol := count BrandSalesSummary.TotalPurchaseDollars;
        RiskFlags.neg_Freight := count BrandSalesSummary.FreightCost |})
  <$> group_by BrandSalesSummary.VendorNumber vss.

(** ** [build_brand_pricing] *)

Module BrandPricing.
Record row := {
  VendorNumber : option Z;
  VendorName : option string;
  Brand : option Z;
  TotalSalesQuantity : num;
  TotalSalesDollars : num;
  TotalPurchaseDollars : num;
  FreightCost : num
}.
End BrandPricing.

Definition select_brand_pricing (vss : list BrandSalesSummary.row)
  : list BrandPricing.row :=
  (λ g : (option Z * option string * option Z) * list BrandSalesSummary.row,
     {| BrandPricing.VendorNumber := g.1.1.1;
        BrandPricing.VendorName := g.1.1.2;
        BrandPricing.Brand := g.1.2;
        BrandPricing.TotalSalesQuantity :=
          Sql.sum (BrandSalesSummary.TotalSalesQuantity <$> g.2);
        BrandPricing.TotalSalesDollars :=
          Sql.sum (BrandSalesSummary.TotalSalesDollars <$> g.2);
        BrandPricing.TotalPurchaseDollars :=
          Sql.sum (BrandSalesSummary.TotalPurchaseDollars <$> g.2);
        BrandPricing.FreightCost :=
          Sql.sum (BrandSalesSummary.FreightCost <$> g.2) |})
  <$> group_by
        (λ r, (BrandSalesSummary.VendorNumber r,
               BrandSalesSummary.VendorName r, BrandSalesSummary.Brand r))
        vss.

(** ** [build_brand_pricing_opps] *)

(** The CTE chain [b], [need], [calc] adds columns to a [brand_pricing]
    row one step at a time. *)
Module B.
Record row := {
  base : BrandPricing.row;
  AvgSalesPrice : num;
  AvgPurchasePrice : num
}.
End B.

Module Need.
Record row := {
  b : B.row;
  RequiredSalesDollars : num
}.
End Need.

Module Calc.
Record row := {
  need : Need.row;
  UpsideDollars : num;
  NeededPriceDeltaPerUnit : num
}.
End Calc.

(** A row of [brand_pricing_opportunities] (the spec's PricingOpportunity). *)
Module PricingOpportunity.
Record row := {
  VendorNumber : option Z;
  VendorName : option string;
  Brand : option Z;
  TotalSalesQuantity : num;
  TotalSalesDollars : num;
  TotalPurchaseDollars : num;
  FreightCost : num;
  AvgSalesPrice : num;
  TargetMargin : num;
  RequiredSalesDollars : num;
  UpsideDollars : num;
  NeededPriceDeltaPerUnit : num
}.
End PricingOpportunity.

Definition cte_b (r : BrandPricing.row) : B.row :=
  {| B.base := r;
     B.AvgSalesPrice :=
       if Sql.gt (BrandPricing.TotalSalesDollars r) (Sql.lit 0)
       then Sql.div (BrandPricing.TotalSalesDollars r)
                    (Sql.mul (BrandPricing.TotalSalesQuantity r) (Sql.lit 1))
       else None;
     B.AvgPurchasePrice :=
       if Sql.gt (BrandPricing.TotalPurchaseDollars r) (Sql.lit 0)
       then Sql.div (BrandPricing.TotalPurchaseDollars r)
                    (Sql.mul (BrandPricing.TotalSalesQuantity r) (Sql.lit 1))
       else None |}.

Definition cte_need (target_margin : num) (x : B.row) : Need.row :=
  let r := B.base x in
  let cost := Sql.add (BrandPricing.TotalPurchaseDollars r)
                      (BrandPricing.FreightCost r) in
  {| Need.b := x;
     Need.RequiredSalesDollars :=
       if Sql.le cost (Sql.lit 0) then Sql.lit 0
       else Sql.div (Sql.mul cost (Sql.lit 1))
                    (Sql.sub (Sql.lit 1) target_margin) |}.

Definition cte_calc (x : Need.row) : Calc.row :=
  let r := B.base (Need.b x) in
  let req := Need.RequiredSalesDollars x in
  {| Calc.need := x;
     Calc.UpsideDollars :=
       if Sql.gt req (BrandPricing.TotalSalesDollars r)
       then Sql.sub req (BrandPricing.TotalSalesDollars r)
       else Sql.lit 0;
     Calc.NeededPriceDeltaPerUnit :=
       if Sql.gt (BrandPricing.TotalSalesQuantity r) (Sql.lit 0)
       then (if Sql.gt req (BrandPricing.TotalSalesDollars r)
             then Sql.div (Sql.sub req (BrandPricing.TotalSalesDollars r))
                          (Sql.mul (BrandPricing.TotalSalesQuantity r)
                                   (Sql.lit 1))
             else Sql.lit 0)
       else None |}.

Definition opportunity_row (target_margin : num) (c : Calc.row)
  : PricingOpportunity.row :=
  let r := B.base (Need.b (Calc.need c)) in
  {| PricingOpportunity.VendorNumber := BrandPricing.VendorNumber r;
     PricingOpportunity.VendorName := BrandPricing.VendorName r;
     PricingOpportunity.Brand := BrandPricing.Brand r;
     PricingOpportunity.TotalSalesQuantity := BrandPricing.TotalSalesQuantity r;
     PricingOpportunity.TotalSalesDollars := BrandPricing.TotalSalesDollars r;
     PricingOpportunity.TotalPurchaseDollars :=
       BrandPricing.TotalPurchaseDollars r;
     PricingOpportunity.FreightCost := BrandPricing.FreightCost r;
     PricingOpportunity.AvgSalesPrice := B.AvgSalesPrice (Need.b (Calc.need c));
     PricingOpportunity.TargetMargin := target_margin;
     PricingOpportunity.RequiredSalesDollars :=
       Need.RequiredSalesDollars (Calc.need c);
     PricingOpportunity.UpsideDollars := Calc.UpsideDollars c;
     PricingOpportunity.NeededPriceDeltaPerUnit :=
       Calc.NeededPriceDeltaPerUnit c |}.

Definition select_brand_pricing_opportunities (target_margin : num)
    (bp : list BrandPricing.row) : list PricingOpportunity.row :=
  (λ r, opportunity_row target_margin
          (cte_calc (cte_need target_margin (cte_b r)))) <$> bp.

(** ** [build_finals] *)

Module FinalVendor.
Record row := {
  VendorNumber : option Z;
  VendorName : option string;
  TotalSalesDollars : num;
  TotalSalesQuantity : num;
  TotalPurchaseDollars : num;
  TotalPurchaseQuantity : num;
  FreightCost : num;
  GrossProfit : num;
  CurrentMargin : num;
  TargetMargin : num;
  RequiredSalesDollars : num;
  UpsideDollars : num;
  NeededPriceDeltaPerUnit : num
}.
End FinalVendor.

Module FinalBrand.
Record row := {
  VendorNumber : option Z;
  VendorName : option string;
  Brand : option Z;
  TotalSalesDollars : num;
  TotalSalesQuantity : num;
  TotalPurchaseDollars : num;
  TotalPurchaseQuantity : num;
  FreightCost : num;
  GrossProfit : num;
  CurrentMargin : num;
  TargetMargin : num;
  RequiredSalesDollars : num;
  UpsideDollars : num;
  NeededPriceDeltaPerUnit : num
}.
End FinalBrand.

Module FinalAll.
Record row := {
  Level : string;
  VendorNumber : option Z;
  VendorName : option string;
  Brand : option Z;
  TotalSalesDollars : num;
  TotalSalesQuantity : num;
  TotalPurchaseDollars : num;
  TotalPurchaseQuantity : num;
  FreightCost : num;
  GrossProfit : num;
  CurrentMargin : num;
  BrandCount : num;
  TargetMargin : num;
  RequiredSalesDollars : num;
  UpsideDollars : num;
  NeededPriceDeltaPerUnit : num
}.
End FinalAll.

Definition select_final_vendor (vsv : list VendorRollup.row)
  : list FinalVendor.row :=
  (λ v,
     {| FinalVendor.VendorNumber := VendorRollup.VendorNumber v;
        FinalVendor.VendorName := VendorRollup.VendorName v;
        FinalVendor.TotalSalesDollars := VendorRollup.TotalSalesDol_in_summary v;
        FinalVendor.TotalSalesQuantity := VendorRollup.TotalSalesQty v;
        FinalVendor.TotalPurchaseDollars := VendorRollup.TotalPurchaseDol v;
        FinalVendor.TotalPurchaseQuantity := VendorRollup.TotalPurchaseQty v;
        FinalVendor.FreightCost := VendorRollup.FreightCost v;
        FinalVendor.GrossProfit := VendorRollup.GrossProfit v;
        FinalVendor.CurrentMargin := VendorRollup.ProfitMargin v;
        FinalVendor.TargetMargin := None;
        FinalVendor.RequiredSalesDollars := None;
        FinalVendor.UpsideDollars := None;
        FinalVendor.NeededPriceDeltaPerUnit := None |})
  <$> vsv.

Definition select_final_brand (vss : list BrandSalesSummary.row)
    (bpo : list PricingOpportunity.row) : list FinalBrand.row :=
  (λ j : BrandSalesSummary.row * option PricingOpportunity.row,
     let s := j.1 in
     {| FinalBrand.VendorNumber := BrandSalesSummary.VendorNumber s;
        FinalBrand.VendorName := BrandSalesSummary.VendorName s;
        FinalBrand.Brand := BrandSalesSummary.Brand s;
        FinalBrand.TotalSalesDollars := BrandSalesSummary.TotalSalesDollars s;
        FinalBrand.TotalSalesQuantity := BrandSalesSummary.TotalSalesQuantity s;
        FinalBrand.TotalPurchaseDollars :=
          BrandSalesSummary.TotalPurchaseDollars s;
        FinalBrand.TotalPurchaseQuantity :=
          BrandSalesSummary.TotalPurchaseQuantity s;
        FinalBrand.FreightCost := BrandSalesSummary.FreightCost s;
        FinalBrand.GrossProfit := BrandSalesSummary.GrossProfit s;
        FinalBrand.CurrentMargin := BrandSalesSummary.ProfitMargin s;
        FinalBrand.TargetMargin := col PricingOpportunity.TargetMargin j.2;
        FinalBrand.RequiredSalesDollars :=
          col PricingOpportunity.RequiredSalesDollars j.2;
        FinalBrand.UpsideDollars := col PricingOpportunity.UpsideDollars j.2;
        FinalBrand.NeededPriceDeltaPerUnit :=
          col PricingOpportunity.NeededPriceDeltaPerUnit j.2 |})
  <$> left_join
        (λ s o, Sql.eq (PricingOpportunity.VendorNumber o)
                       (BrandSalesSummary.VendorNumber s)
                && Sql.eq (PricingOpportunity.Brand o)
                          (BrandSalesSummary.Brand s))
        vss bpo.

Definition select_final_all (fv : list FinalVendor.row)
    (fb : list FinalBrand.row) : list FinalAll.row :=
  ((λ v,
      {| FinalAll.Level := "vendor";
         FinalAll.VendorNumber := FinalVendor.VendorNumber v;
         FinalAll.VendorName := FinalVendor.VendorName v;
         FinalAll.Brand := None;
         FinalAll.TotalSalesDollars := FinalVendor.TotalSalesDollars v;
         FinalAll.TotalSalesQuantity := FinalVendor.TotalSalesQuantity v;
         FinalAll.TotalPurchaseDollars := FinalVendor.TotalPurchaseDollars v;
         FinalAll.TotalPurchaseQuantity := FinalVendor.TotalPurchaseQuantity v;
         FinalAll.FreightCost := FinalVendor.FreightCost v;
         FinalAll.GrossProfit := FinalVendor.GrossProfit v;
         FinalAll.CurrentMargin := FinalVendor.CurrentMargin v;
         FinalAll.BrandCount := None;
         FinalAll.TargetMargin := FinalVendor.TargetMargin v;
         FinalAll.RequiredSalesDollars := FinalVendor.RequiredSalesDollars v;
         FinalAll.UpsideDollars := FinalVendor.UpsideDollars v;
         FinalAll.NeededPriceDeltaPerUnit :=
           FinalVendor.NeededPriceDeltaPerUnit v |}) <$> fv)
  ++
  ((λ b,
      {| FinalAll.Level := "brand";
         FinalAll.VendorNumber := FinalBrand.VendorNumber b;
         FinalAll.VendorName := FinalBrand.VendorName b;
         FinalAll.Brand := FinalBrand.Brand b;
         FinalAll.TotalSalesDollars := FinalBrand.TotalSalesDollars b;
         FinalAll.TotalSalesQuantity := FinalBrand.TotalSalesQuantity b;
         FinalAll.TotalPurchaseDollars := FinalBrand.TotalPurchaseDollars b;
         FinalAll.TotalPurchaseQuantity := FinalBrand.TotalPurchaseQuantity b;
         FinalAll.FreightCost := FinalBrand.FreightCost b;
         FinalAll.GrossProfit := FinalBrand.GrossProfit b;
         FinalAll.CurrentMargin := FinalBrand.CurrentMargin b;
         FinalAll.BrandCount := None;
         FinalAll.TargetMargin := FinalBrand.TargetMargin b;
         FinalAll.RequiredSalesDollars := FinalBrand.RequiredSalesDollars b;
         FinalAll.UpsideDollars := FinalBrand.UpsideDollars b;
         FinalAll.NeededPriceDeltaPerUnit :=
           FinalBrand.NeededPriceDeltaPerUnit b |}) <$> fb).

(** ** The database and the statements that change it *)

(** The tables the script touches ([None]: the table does not exist) and
    the set of index names. *)
Module Db.
Record t := {
  purchases : option (list PurchaseRecord.row);
  vendor_invoice : option (list VendorInvoiceRecord.row);
  sales : option (list SaleRecord.row);
  indexes : gset string;
  vendor_sales_summary : option (list BrandSalesSummary.row);
  vendor_summary_by_vendor : option (list VendorRollup.row);
  spend_by_vendor : option (list SpendByVendor.row);
  vendor_risk_flags : option (list RiskFlags.row);
  brand_pricing : option (list BrandPricing.row);
  brand_pricing_opportunities : option (list PricingOpportunity.row);
  final_vendor : option (list FinalVendor.row);
  final_brand : option (list FinalBrand.row);
  final_all : option (list FinalAll.row);
  analyzed : bool
}.

Definition present {T} (name : string) (tbl : option T) : list string :=
  match tbl with
  | Some _ => [name]
  | None => []
  end.

(** [SELECT name FROM sqlite_master WHERE type='table'] *)
Definition table_names (db : t) : list string :=
  present "purchases" (purchases db)
  ++ present "vendor_invoice" (vendor_invoice db)
  ++ present "sales" (sales db)
  ++ present "vendor_sales_summary" (vendor_sales_summary db)
  ++ present "vendor_summary_by_vendor" (vendor_summary_by_vendor db)
  ++ present "spend_by_vendor" (spend_by_vendor db)
  ++ present "vendor_risk_flags" (vendor_risk_flags db)
  ++ present "brand_pricing" (brand_pricing db)
  ++ present "brand_pricing_opportunities" (brand_pricing_opportunities db)
  ++ present "final_vendor" (final_vendor db)
  ++ present "final_brand" (final_brand db)
  ++ present "final_all" (final_all db)
  ++ (if analyzed db then ["sqlite_stat1"] else []).

Definition with_indexes (x : gset string) (db : t) : t :=
  {| purchases := purchases db; vendor_invoice := vendor_invoice db;
     sales := sales db; indexes := x;
     vendor_sales_summary := vendor_sales_summary db;
     vendor_summary_by_vendor := vendor_summary_by_vendor db;
     spend_by_vendor := spend_by_vendor db;
     vendor_risk_flags := vendor_risk_flags db;
     brand_pricing := brand_pricing db;
     brand_pricing_opportunities := brand_pricing_opportunities db;
     final_vendor := final_vendor db; final_brand := final_brand db;
     final_all := final_all db; analyzed := analyzed db |}.

Definition with_vendor_sales_summary x (db : t) : t :=
  {| purchases := purchases db; vendor_invoice := vendor_invoice db;
     sales := sales db; indexes := indexes db;
     vendor_sales_summary := x;
     vendor_summary_by_vendor := vendor_summary_by_vendor db;
     spend_by_vendor := spend_by_vendor db;
     vendor_risk_flags := vendor_risk_flags db;
     brand_pricing := brand_pricing db;
     brand_pricing_opportunities := brand_pricing_opportunities db;
     final_vendor := final_vendor db; final_brand := final_brand db;
     final_all := final_all db; analyzed := analyzed db |}.

Definition with_vendor_summary_by_vendor x (db : t) : t :=
  {| purchases := purchases db; vendor_invoice := vendor_invoice db;
     sales := sales db; indexes := indexes db;
     vendor_sales_summary := vendor_sales_summary db;
     vendor_summary_by_vendor := x;
     spend_by_vendor := spend_by_vendor db;
     vendor_risk_flags := vendor_risk_flags db;
     brand_pricing := brand_pricing db;
     brand_pricing_opportunities := brand_pricing_opportunities db;
     final_vendor := final_vendor db; final_brand := final_brand db;
     final_all := final_all db; analyzed := analyzed db |}.

Definition with_spend_by_vendor x (db : t) : t :=
  {| purchases := purchases db; vendor_invoice := vendor_invoice db;
     sales := sales db; indexes := indexes db;
     vendor_sales_summary := vendor_sales_summary db;
     vendor_summary_by_vendor := vendor_summary_by_vendor db;
     spend_by_vendor := x;
     vendor_risk_flags := vendor_risk_flags db;
     brand_pricing := brand_pricing db;
     brand_pricing_opportunities := brand_pricing_opportunities db;
     final_vendor := final_vendor db; final_brand := final_brand db;
     final_all := final_all db; analyzed := analyzed db |}.

Definition with_vendor_risk_flags x (db : t) : t :=
  {| purchases := purchases db; vendor_invoice := vendor_invoice db;
     sales := sales db; indexes := indexes db;
     vendor_sales_summary := vendor_sales_summary db;
     vendor_summary_by_vendor := vendor_summary_by_vendor db;
     spend_by_vendor := spend_by_vendor db;
     vendor_risk_flags := x;
     brand_pricing := brand_pricing db;
     brand_pricing_opportunities := brand_pricing_opportunities db;
     final_vendor := final_vendor db; final_brand := final_brand db;
     final_all := final_all db; analyzed := analyzed db |}.

Definition with_brand_pricing x (db : t) : t :=
  {| purchases := purchases db; vendor_invoice := vendor_invoice db;
     sales := sales db; indexes := indexes db;
     vendor_sales_summary := vendor_sales_summary db;
     vendor_summary_by_vendor := vendor_summary_by_vendor db;
     spend_by_vendor := spend_by_vendor db;
     vendor_risk_flags := vendor_risk_flags db;
     brand_pricing := x;
     brand_pricing_opportunities := brand_pricing_opportunities db;
     final_vendor := final_vendor db; final_brand := final_brand db;
     final_all := final_all db; analyzed := analyzed db |}.

Definition with_brand_pricing_opportunities x (db : t) : t :=
  {| purchases := purchases db; vendor_invoice := vendor_invoice db;
     sales := sales db; indexes := indexes db;
     vendor_sales_summary := vendor_sales_summary db;
     vendor_summary_by_vendor := vendor_summary_by_vendor db;
     spend_by_vendor := spend_by_vendor db;
     vendor_risk_flags := vendor_risk_flags db;
     brand_pricing := brand_pricing db;
     brand_pricing_opportunities := x;
     final_vendor := final_vendor db; final_brand := final_brand db;
     final_all := final_all db; analyzed := analyzed db |}.

Definition with_final_vendor x (db : t) : t :=
  {| purchases := purchases db; vendor_invoice := vendor_invoice db;
     sales := sales db; indexes := indexes db;
     vendor_sales_summary := vendor_sales_summary db;
     vendor_summary_by_vendor := vendor_summary_by_vendor db;
     spend_by_vendor := spend_by_vendor db;
     vendor_risk_flags := vendor_risk_flags db;
     brand_pricing := brand_pricing db;
     brand_pricing_opportunities := brand_pricing_opportunities db;
     final_vendor := x; final_brand := final_brand db;
     final_all := final_all db; analyzed := analyzed db |}.

Definition with_final_brand x (db : t) : t :=
  {| purchases := purchases db; vendor_invoice := vendor_invoice db;
     sales := sales db; indexes := indexes db;
     vendor_sales_summary := vendor_sales_summary db;
     vendor_summary_by_vendor := vendor_summary_by_vendor db;
     spend_by_vendor := spend_by_vendor db;
     vendor_risk_flags := vendor_risk_flags db;
     brand_pricing := brand_pricing db;
     brand_pricing_opportunities := brand_pricing_opportunities db;
     final_vendor := final_vendor db; final_brand := x;
     final_all := final_all db; analyzed := analyzed db |}.

Definition with_final_all x (db : t) : t :=
  {| purchases := purchases db; vendor_invoice := vendor_invoice db;
     sales := sales db; indexes := indexes db;
     vendor_sales_summary := vendor_sales_summary db;
     vendor_summary_by_vendor := vendor_summary_by_vendor db;
     spend_by_vendor := spend_by_vendor db;
     vendor_risk_flags := vendor_risk_flags db;
     brand_pricing := brand_pricing db;
     brand_pricing_opportunities := brand_pricing_opportunities db;
     final_vendor := final_vendor db; final_brand := final_brand db;
     final_all := x; analyzed := analyzed db |}.

(** [ANALYZE] fills [sqlite_stat1] with statistics on the tables and
    indexes; the query planner reads them from then on. *)
Definition with_analyzed (x : bool) (db : t) : t :=
  {| purchases := purchases db; vendor_invoice := vendor_invoice db;
     sales := sales db; indexes := indexes db;
     vendor_sales_summary := vendor_sales_summary db;
     vendor_summary_by_vendor := vendor_summary_by_vendor db;
     spend_by_vendor := spend_by_vendor db;
     vendor_risk_flags := vendor_risk_flags db;
     brand_pricing := brand_pricing db;
     brand_pricing_opportunities := brand_pricing_opportunities db;
     final_vendor := final_vendor db; final_brand := final_brand db;
     final_all := final_all db; analyzed := x |}.
End Db.

(** Python exceptions the script can meet: the [RuntimeError] of
    [require_tables], carrying its list of missing names, and SQLite's
    "no such table". *)
Inductive exn :=
  | RuntimeError (missing : list string)
  | OperationalError (no_such_table : string).

(** A statement run on the connection: it returns or raises, and leaves a
    database behind either way (every statement of the script is committed
    on its own; nothing is rolled back). *)
Definition M (A : Type) : Type := Db.t → (exn + A) * Db.t.

#[global] Instance M_ret : MRet M := λ A a db, (inr a, db).

#[global] Instance M_bind : MBind M := λ A B f m db,
  match m db with
  | (inr a, db') => f a db'
  | (inl e, db') => (inl e, db')
  end.

Definition raise {A} (e : exn) : M A := λ db, (inl e, db).

Definition execute (f : Db.t → Db.t) : M unit := λ db, (inr (), f db).

(** Reading a table in a [FROM] clause. *)
Definition from {T} (name : string) (tbl : Db.t → option T) : M T := λ db,
  match tbl db with
  | Some rows => (inr rows, db)
  | None => (inl (OperationalError name), db)
  end.

(** [CREATE INDEX IF NOT EXISTS idx ON tbl(...)] *)
Definition create_index_if_not_exists (idx tbl : string) : M unit := λ db,
  if decide (tbl ∈ Db.table_names db)
  then (inr (), Db.with_indexes ({[ idx ]} ∪ Db.indexes db) db)
  else (inl (OperationalError tbl), db).

(** ** The script's functions *)

Definition require_tables (names : list string) : M unit := λ db,
  let have : gset string := list_to_set (Db.table_names db) in
  let missing := filter (λ n, n ∉ have) names in
  match missing with
  | [] => (inr (), db)
  | _ => (inl (RuntimeError missing), db)
  end.

Definition ensure_indexes : M unit :=
  create_index_if_not_exists "idx_sales_inventory" "sales";;
  create_index_if_not_exists "idx_purchases_inventory" "purchases";;
  create_index_if_not_exists "idx_purchases_vendor" "purchases";;
  create_index_if_not_exists "idx_vi_vendor" "vendor_invoice".

Definition build_vendor_sales_summary : M unit :=
  execute (Db.with_vendor_sales_summary None);;
  s ← from "sales" Db.sales;
  p ← from "purchases" Db.purchases;
  v ← from "vendor_invoice" Db.vendor_invoice;
  execute (Db.with_vendor_sales_summary
             (Some (select_vendor_sales_summary s p v))).

Definition build_vendor_rollup : M unit :=
  execute (Db.with_vendor_summary_by_vendor None);;
  vss ← from "vendor_sales_summary" Db.vendor_sales_summary;
  execute (Db.with_vendor_summary_by_vendor
             (Some (select_vendor_summary_by_vendor vss))).

Definition build_spend_and_risk : M unit :=
  execute (Db.with_spend_by_vendor None);;
  v ← from "vendor_invoice" Db.vendor_invoice;
  vss ← from "vendor_sales_summary" Db.vendor_sales_summary;
  execute (Db.with_spend_by_vendor (Some (select_spend_by_vendor v vss)));;
  execute (Db.with_vendor_risk_flags None);;
  vss ← from "vendor_sales_summary" Db.vendor_sales_summary;
  execute (Db.with_vendor_risk_flags (Some (select_vendor_risk_flags vss))).

Definition build_brand_pricing : M unit :=
  execute (Db.with_brand_pricing None);;
  vss ← from "vendor_sales_summary" Db.vendor_sales_summary;
  execute (Db.with_brand_pricing (Some (select_brand_pricing vss))).

Definition build_brand_pricing_opps (target_margin : Qc) : M unit :=
  execute (Db.with_brand_pricing_opportunities None);;
  bp ← from "brand_pricing" Db.brand_pricing;
  execute (Db.with_brand_pricing_opportunities
             (Some (select_brand_pricing_opportunities (Some target_margin)
                      bp))).

Definition build_finals : M unit :=
  execute (Db.with_final_vendor None);;
  vsv ← from "vendor_summary_by_vendor" Db.vendor_summary_by_vendor;
  execute (Db.with_final_vendor (Some (select_final_vendor vsv)));;
  execute (Db.with_final_brand None);;
  vss ← from "vendor_sales_summary" Db.vendor_sales_summary;
  bpo ← from "brand_pricing_opportunities" Db.brand_pricing_opportunities;
  execute (Db.with_final_brand (Some (select_final_brand vss bpo)));;
  execute (Db.with_final_all None);;
  fv ← from "final_vendor" Db.final_vendor;
  fb ← from "final_brand" Db.final_brand;
  execute (Db.with_final_all (Some (select_final_all fv fb))).

(** [export_csvs] reads each of the nine tables and writes a file; the
    database is left as it is. *)
Definition export_csvs : M unit :=
  from "vendor_sales_summary" Db.vendor_sales_summary;;
  from "vendor_summary_by_vendor" Db.vendor_summary_by_vendor;;
  from "spend_by_vendor" Db.spend_by_vendor;;
  from "vendor_risk_flags" Db.vendor_risk_flags;;
  from "brand_pricing" Db.brand_pricing;;
  from "brand_pricing_opportunities" Db.brand_pricing_opportunities;;
  from "final_vendor" Db.final_vendor;;
  from "final_brand" Db.final_brand;;
  from "final_all" Db.final_all;;
  mret ().

(** [conn.execute("ANALYZE;")]: the statistics are gathered; no table of
    the script changes. *)
Definition analyze : M unit := execute (Db.with_analyzed true).

(** The [try] block of [main]; [target] is [args.target]. *)
Definition main (target : Qc) : M unit :=
  require_tables ["purchases"; "vendor_invoice"; "sales"]%string;;
  ensure_indexes;;
  build_vendor_sales_summary;;
  build_vendor_rollup;;
  build_spend_and_risk;;
  build_brand_pricing;;
  build_brand_pricing_opps target;;
  build_finals;;
  export_csvs;;
  analyze.

(** * The quantities the properties speak of

    Read directly off the base tables, without the script's intermediate
    tables: a vendor's invoice freight, a brand's purchase dollars and
    quantity, and a vendor's purchase dollars.  A [NULL] vendor number or
    brand matches nothing, as in the script's [ON] clauses. *)

Definition invoice_freight (vendor_invoice : list VendorInvoiceRecord.row)
    (v : option Z) : num :=
  Sql.sum (VendorInvoiceRecord.Freight
           <$> filter
                 (λ i, Sql.eq (VendorInvoiceRecord.VendorNumber i) v = true)
                 vendor_invoice).

Definition purchase_dollars (p : PurchaseRecord.row) : num :=
  Sql.mul (PurchaseRecord.PurchasePrice p) (PurchaseRecord.Quantity p).

Definition of_brand (v b : option Z) (p : PurchaseRecord.row) : bool :=
  Sql.eq (PurchaseRecord.VendorNumber p) v && Sql.eq (PurchaseRecord.Brand p) b.

Definition brand_purchase_dollars (purchases : list PurchaseRecord.row)
    (v b : option Z) : num :=
  Sql.sum (purchase_dollars <$> filter (λ p, of_brand v b p = true) purchases).

Definition brand_purchase_quantity (purchases : list PurchaseRecord.row)
    (v b : option Z) : num :=
  Sql.sum (PurchaseRecord.Quantity
           <$> filter (λ p, of_brand v b p = true) purchases).

Definition vendor_purchase_dollars (purchases : list PurchaseRecord.row)
    (v : option Z) : num :=
  Sql.sum (purchase_dollars
           <$> filter (λ p, Sql.eq (PurchaseRecord.VendorNumber p) v = true)
                      purchases).

(** A number with [NULL] read as 0, and the plain sum of a column. *)
Definition value (x : num) : Qc := default 0 x.

Definition sum0 (l : list num) : Qc := Sql.total (Sql.non_null l).

(** The fraction behind a number, in lowest terms. *)
Definition shown (x : num) : option Q := this <$> x.

Definition Qcmax (a b : Qc) : Qc := if decide (a < b) then b else a.

(** The rows of [vendor_sales_summary] that belong to one vendor number
    (the groups of [GROUP BY VendorNumber]). *)
Definition rows_of (v : option Z) (vss : list BrandSalesSummary.row)
  : list BrandSalesSummary.row :=
  filter (λ r, BrandSalesSummary.VendorNumber r = v) vss.

(** The share of freight [F] that falls on purchase dollars [P] out of a
    vendor total [T]. *)
Definition allocated_freight (F P T : Qc) : Qc :=
  if decide (0 < F ∧ 0 < T) then F * P / T else 0.

(** The row of [joined] that belongs to a row of [sales_agg], with the three
    [LEFT JOIN]s replaced by the quantities above. *)
Definition joined_row (purchases : list PurchaseRecord.row)
    (vendor_invoice : list VendorInvoiceRecord.row) (s : SalesAgg.row)
  : Joined.row :=
  let v := SalesAgg.VendorNumber s in
  let bpd := brand_purchase_dollars purchases v (SalesAgg.Brand s) in
  let tot := vendor_purchase_dollars purchases v in
  let fr := invoice_freight vendor_invoice v in
  {| Joined.VendorNumber := v;
     Joined.VendorName := SalesAgg.VendorName s;
     Joined.Brand := SalesAgg.Brand s;
     Joined.TotalSalesQuantity :=
       Sql.coalesce (SalesAgg.TotalSalesQuantity s) (Sql.lit 0);
     Joined.TotalSalesDollars :=
       Sql.coalesce (SalesAgg.TotalSalesDollars s) (Sql.lit 0);
     Joined.TotalPurchaseQuantity :=
       Sql.coalesce (brand_purchase_quantity purchases v (SalesAgg.Brand s))
                    (Sql.lit 0);
     Joined.TotalPurchaseDollars := Sql.coalesce bpd (Sql.lit 0);
     Joined.FreightCost :=
       if Sql.gt (Sql.coalesce fr (Sql.lit 0)) (Sql.lit 0)
          && Sql.gt (Sql.coalesce tot (Sql.lit 0)) (Sql.lit 0)
       then Sql.div
              (Sql.mul (Sql.mul fr (Sql.coalesce bpd (Sql.lit 0))) (Sql.lit 1))
              tot
       else Sql.lit 0 |}.

(** The grouping key of [brand_purch], and the [ON] clause that joins it. *)
Definition brand_key (p : PurchaseRecord.row) : option Z * option Z :=
  (PurchaseRecord.VendorNumber p, PurchaseRecord.Brand p).

Definition brand_match (v b : option Z) (k : option Z * option Z) : bool :=
  Sql.eq k.1 v && Sql.eq k.2 b.

(** The names [main] passes to [require_tables], and those of them whose
    table is absent. *)
Definition base_tables : list string := ["purchases"; "vendor_invoice"; "sales"].

Definition absent {T} (name : string) (tbl : option T) : list string :=
  match tbl with
  | Some _ => []
  | None => [name]
  end.

Definition missing_base_tables (db : Db.t) : list string :=
  absent "purchases" (Db.purchases db)
  ++ absent "vendor_invoice" (Db.vendor_invoice db)
  ++ absent "sales" (Db.sales db).


(** What a ratio may be when its denominator is zero. *)
Definition zero_or_null (x : num) : Prop := x = None ∨ x = Some 0.

(** Keys of [vendor_sales_summary] rows, and of the rows of the
    sales-to-purchases join they are grouped from. *)
Definition summary_key (r : BrandSalesSummary.row)
  : option Z * option string * option Z :=
  (BrandSalesSummary.VendorNumber r, BrandSalesSummary.VendorName r,
   BrandSalesSummary.Brand r).

Definition vendor_brand (r : BrandSalesSummary.row) : option Z * option Z :=
  (BrandSalesSummary.VendorNumber r, BrandSalesSummary.Brand r).

Definition sales_purchases_join (sales : list SaleRecord.row)
    (purchases : list PurchaseRecord.row)
  : list (SaleRecord.row * PurchaseRecord.row) :=
  inner_join
    (λ s p, Sql.eq (PurchaseRecord.InventoryId p) (SaleRecord.InventoryId s))
    sales purchases.

Definition join_key (sp : SaleRecord.row * PurchaseRecord.row)
  : option Z * option string * option Z :=
  (PurchaseRecord.VendorNumber sp.2, PurchaseRecord.VendorName sp.2,
   SaleRecord.Brand sp.1).

Definition join_vendor_brand (sp : SaleRecord.row * PurchaseRecord.row)
  : option Z * option Z :=
  (PurchaseRecord.VendorNumber sp.2, SaleRecord.Brand sp.1).

(** * Sample data

    The spec's example: vendor 1 with invoice freight 100 and two brands
    with purchase dollars 300 and 700, both of them sold. *)
Module Sample.

Definition purchases : list PurchaseRecord.row :=
  [ {| PurchaseRecord.InventoryId := Some "i1"%string;
       PurchaseRecord.VendorNumber := Some 1%Z;
       PurchaseRecord.VendorName := Some "ACME"%string;
       PurchaseRecord.Brand := Some 1%Z;
       PurchaseRecord.Quantity := Sql.lit 3;
       PurchaseRecord.PurchasePrice := Sql.lit 100 |};
    {| PurchaseRecord.InventoryId := Some "i2"%string;
       PurchaseRecord.VendorNumber := Some 1%Z;
       PurchaseRecord.VendorName := Some "ACME"%string;
       PurchaseRecord.Brand := Some 2%Z;
       PurchaseRecord.Quantity := Sql.lit 7;
       PurchaseRecord.PurchasePrice := Sql.lit 100 |} ].

Definition sales : list SaleRecord.row :=
  [ {| SaleRecord.InventoryId := Some "i1"%string;
       SaleRecord.Brand := Some 1%Z;
       SaleRecord.SalesQuantity := Sql.lit 2;
       SaleRecord.SalesDollars := Sql.lit 500 |};
    {| SaleRecord.InventoryId := Some "i2"%string;
       SaleRecord.Brand := Some 2%Z;
       SaleRecord.SalesQuantity := Sql.lit 5;
       SaleRecord.SalesDollars := Sql.lit 900 |} ].

Definition vendor_invoice : list VendorInvoiceRecord.row :=
  [ {| VendorInvoiceRecord.VendorNumber := Some 1%Z;
       VendorInvoiceRecord.Quantity := Sql.lit 10;
       VendorInvoiceRecord.Dollars := Sql.lit 1000;
       VendorInvoiceRecord.Freight := Sql.lit 100 |} ].

Definition summary : list BrandSalesSummary.row :=
  select_vendor_sales_summary sales purchases vendor_invoice.


(** The first purchase booked a second time under another spelling of
    the vendor's name. *)
Definition purchases_two_names : list PurchaseRecord.row :=
  {| PurchaseRecord.InventoryId := Some "i1"%string;
     PurchaseRecord.VendorNumber := Some 1%Z;
     PurchaseRecord.VendorName := Some "ACME INC"%string;
     PurchaseRecord.Brand := Some 1%Z;
     PurchaseRecord.Quantity := Sql.lit 1;
     PurchaseRecord.PurchasePrice := Sql.lit 100 |} :: purchases.

(** A [brand_pricing] row of a brand that was bought but brought in
    nothing, and the [joined] row of such a brand. *)
Definition pricing_no_sales : BrandPricing.row :=
  {| BrandPricing.VendorNumber := Some 1%Z;
     BrandPricing.VendorName := Some "ACME"%string;
     BrandPricing.Brand := Some 3%Z;
     BrandPricing.TotalSalesQuantity := Sql.lit 0;
     BrandPricing.TotalSalesDollars := Sql.lit 0;
     BrandPricing.TotalPurchaseDollars := Sql.lit 600;
     BrandPricing.FreightCost := Sql.lit 0 |}.

Definition joined_no_sales : Joined.row :=
  {| Joined.VendorNumber := Some 1%Z;
     Joined.VendorName := Some "ACME"%string;
     Joined.Brand := Some 3%Z;
     Joined.TotalSalesQuantity := Sql.lit 0;
     Joined.TotalSalesDollars := Sql.lit 0;
     Joined.TotalPurchaseQuantity := Sql.lit 6;
     Joined.TotalPurchaseDollars := Sql.lit 600;
     Joined.FreightCost := Sql.lit 0 |}.

(** The first purchase turned into a return of three units. *)
Definition purchases_with_return : list PurchaseRecord.row :=
  [ {| PurchaseRecord.InventoryId := Some "i1"%string;
       PurchaseRecord.VendorNumber := Some 1%Z;
       PurchaseRecord.VendorName := Some "ACME"%string;
       PurchaseRecord.Brand := Some 1%Z;
       PurchaseRecord.Quantity := Sql.lit (-3);
       PurchaseRecord.PurchasePrice := Sql.lit 100 |};
    {| PurchaseRecord.InventoryId := Some "i2"%string;
       PurchaseRecord.VendorNumber := Some 1%Z;
       PurchaseRecord.VendorName := Some "ACME"%string;
       PurchaseRecord.Brand := Some 2%Z;
       PurchaseRecord.Quantity := Sql.lit 7;
       PurchaseRecord.PurchasePrice := Sql.lit 100 |} ].

(** An invoice table with a second vendor, who sold nothing. *)
Definition two_vendor_invoices : list VendorInvoiceRecord.row :=
  [ {| VendorInvoiceRecord.VendorNumber := Some 2%Z;
       VendorInvoiceRecord.Quantity := Sql.lit 4;
       VendorInvoiceRecord.Dollars := Sql.lit 250;
       VendorInvoiceRecord.Freight := Sql.lit 5 |};
    {| VendorInvoiceRecord.VendorNumber := Some 1%Z;
       VendorInvoiceRecord.Quantity := Sql.lit 10;
       VendorInvoiceRecord.Dollars := Sql.lit 1000;
       VendorInvoiceRecord.Freight := Sql.lit 100 |} ].


(** A sale that carries no brand. *)
Definition sales_null_brand : list SaleRecord.row :=
  [ {| SaleRecord.InventoryId := Some "i1"%string;
       SaleRecord.Brand := None;
       SaleRecord.SalesQuantity := Sql.lit 2;
       SaleRecord.SalesDollars := Sql.lit 500 |} ].

(** The target margin [main] uses by default, 0.35. *)
Definition target : Qc := Q2Qc (35 # 100).

(** A database that holds the three base tables and nothing else. *)
Definition db : Db.t :=
  {| Db.purchases := Some purchases;
     Db.vendor_invoice := Some vendor_invoice;
     Db.sales := Some sales;
     Db.indexes := ∅;
     Db.vendor_sales_summary := None;
     Db.vendor_summary_by_vendor := None;
     Db.spend_by_vendor := None;
     Db.vendor_risk_flags := None;
     Db.brand_pricing := None;
     Db.brand_pricing_opportunities := None;
     Db.final_vendor := None;
     Db.final_brand := None;
     Db.final_all := None;
     Db.analyzed := false |}.

(** The same database without [purchases] and [sales]. *)
Definition db_invoices_only : Db.t :=
  {| Db.purchases := None;
     Db.vendor_invoice := Some vendor_invoice;
     Db.sales := None;
     Db.indexes := ∅;
     Db.vendor_sales_summary := None;
     Db.vendor_summary_by_vendor := None;
     Db.spend_by_vendor := None;
     Db.vendor_risk_flags := None;
     Db.brand_pricing := None;
     Db.brand_pricing_opportunities := None;
     Db.final_vendor := None;
     Db.final_brand := None;
     Db.final_all := None;
     Db.analyzed := false |}.

(** [db] without [purchases], and [db] without [vendor_invoice]. *)
Definition db_no_purchases : Db.t :=
  {| Db.purchases := None;
     Db.vendor_invoice := Some vendor_invoice;
     Db.sales := Some sales;
     Db.indexes := ∅;
     Db.vendor_sales_summary := None;
     Db.vendor_summary_by_vendor := None;
     Db.spend_by_vendor := None;
     Db.vendor_risk_flags := None;
     Db.brand_pricing := None;
     Db.brand_pricing_opportunities := None;
     Db.final_vendor := None;
     Db.final_brand := None;
     Db.final_all := None;
     Db.analyzed := false |}.

Definition db_no_invoice : Db.t :=
  {| Db.purchases := Some purchases;
     Db.vendor_invoice := None;
     Db.sales := Some sales;
     Db.indexes := ∅;
     Db.vendor_sales_summary := None;
     Db.vendor_summary_by_vendor := None;
     Db.spend_by_vendor := None;
     Db.vendor_risk_flags := None;
     Db.brand_pricing := None;
     Db.brand_pricing_opportunities := None;
     Db.final_vendor := None;
     Db.final_brand := None;
     Db.final_all := None;
     Db.analyzed := false |}.

(** A database in which an earlier run left [final_all] behind, and in
    which [vendor_sales_summary] and [vendor_summary_by_vendor] exist but
    [brand_pricing_opportunities] does not. *)
Definition db_stale_final_all : Db.t :=
  {| Db.purchases := Some purchases;
     Db.vendor_invoice := Some vendor_invoice;
     Db.sales := Some sales;
     Db.indexes := ∅;
     Db.vendor_sales_summary := Some summary;
     Db.vendor_summary_by_vendor :=
       Some (select_vendor_summary_by_vendor summary);
     Db.spend_by_vendor := None;
     Db.vendor_risk_flags := None;
     Db.brand_pricing := None;
     Db.brand_pricing_opportunities := None;
     Db.final_vendor := None;
     Db.final_brand := Some [];
     Db.final_all := Some [];
     Db.analyzed := false |}.

End Sample.

(** The columns [brand_pricing] keeps of a [vendor_sales_summary] row. *)
Definition pricing_of_summary (r : BrandSalesSummary.row) : BrandPricing.row :=
  {| BrandPricing.VendorNumber := BrandSalesSummary.VendorNumber r;
     BrandPricing.VendorName := BrandSalesSummary.VendorName r;
     BrandPricing.Brand := BrandSalesSummary.Brand r;
     BrandPricing.TotalSalesQuantity := BrandSalesSummary.TotalSalesQuantity r;
     BrandPricing.TotalSalesDollars := BrandSalesSummary.TotalSalesDollars r;
     BrandPricing.TotalPurchaseDollars :=
       BrandSalesSummary.TotalPurchaseDollars r;
     BrandPricing.FreightCost := BrandSalesSummary.FreightCost r |}.

(** The row of [brand_pricing_opportunities] worked out from one row of
    [brand_pricing]. *)
Definition opportunity_of (target_margin : num) (b : BrandPricing.row)
  : PricingOpportunity.row :=
  opportunity_row target_margin
    (cte_calc (cte_need target_margin (cte_b b))).

(** [brand_pricing_opportunities] and [final_brand] as a run of the script
    builds them from the base tables. *)
Definition built_opportunities (target : Qc) (s : list SaleRecord.row)
    (p : list PurchaseRecord.row) (inv : list VendorInvoiceRecord.row)
  : list PricingOpportunity.row :=
  select_brand_pricing_opportunities (Some target)
    (select_brand_pricing (select_vendor_sales_summary s p inv)).

Definition built_final_brand (target : Qc) (s : list SaleRecord.row)
    (p : list PurchaseRecord.row) (inv : list VendorInvoiceRecord.row)
  : list FinalBrand.row :=
  select_final_brand (select_vendor_sales_summary s p inv)
    (built_opportunities target s p inv).

(** The row of [vendor_sales_summary] that a row of [final_brand] carries
    in its first ten columns, and the opportunities that the [ON] clause of
    [final_brand] pairs with a summary row. *)
Definition summary_of_final_brand (f : FinalBrand.row)
  : BrandSalesSummary.row :=
  {| BrandSalesSummary.VendorNumber := FinalBrand.VendorNumber f;
     BrandSalesSummary.VendorName := FinalBrand.VendorName f;
     BrandSalesSummary.Brand := FinalBrand.Brand f;
     BrandSalesSummary.TotalSalesQuantity := FinalBrand.TotalSalesQuantity f;
     BrandSalesSummary.TotalSalesDollars := FinalBrand.TotalSalesDollars f;
     BrandSalesSummary.TotalPurchaseQuantity :=
       FinalBrand.TotalPurchaseQuantity f;
     BrandSalesSummary.TotalPurchaseDollars :=
       FinalBrand.TotalPurchaseDollars f;
     BrandSalesSummary.FreightCost := FinalBrand.FreightCost f;
     BrandSalesSummary.GrossProfit := FinalBrand.GrossProfit f;
     BrandSalesSummary.ProfitMargin := FinalBrand.CurrentMargin f |}.

Definition opportunities_of (bpo : list PricingOpportunity.row)
    (r : BrandSalesSummary.row) : list PricingOpportunity.row :=
  filter (λ o, Sql.eq (PricingOpportunity.VendorNumber o)
                      (BrandSalesSummary.VendorNumber r)
               && Sql.eq (PricingOpportunity.Brand o)
                         (BrandSalesSummary.Brand r)
               = true)
         bpo.

Definition final_brand_key (f : FinalBrand.row) : option Z * option Z :=
  (FinalBrand.VendorNumber f, FinalBrand.Brand f).

Definition opportunity_key (o : PricingOpportunity.row)
  : option Z * option Z :=
  (PricingOpportunity.VendorNumber o, PricingOpportunity.Brand o).

(** How many of some rows have a negative value in a column (what the
    [SUM(CASE WHEN x < 0 THEN 1 ELSE 0 END)] of [vendor_risk_flags]
    counts). *)
Definition negatives (c : BrandSalesSummary.row → num)
    (rows : list BrandSalesSummary.row) : nat :=
  length (filter (λ r, Sql.lt (c r) (Sql.lit 0) = true) rows).

(** The rows of [vendor_sales_summary] that the correlated subquery of
    [spend_by_vendor] selects for a vendor number. *)
Definition rows_matching (v : option Z) (vss : list BrandSalesSummary.row)
  : list BrandSalesSummary.row :=
  filter (λ r, Sql.eq (BrandSalesSummary.VendorNumber r) v = true) vss.

(** The four indexes of [ensure_indexes]. *)
Definition script_indexes : gset string :=
  {[ "idx_sales_inventory"; "idx_purchases_inventory";
     "idx_purchases_vendor"; "idx_vi_vendor" ]}%string.

(** What a statement that reads one table leaves as its outcome. *)
Definition read_outcome {T} (name : string) (tbl : option T) : exn + unit :=
  match tbl with
  | Some _ => inr ()
  | None => inl (OperationalError name)
  end.


(** * REAL arithmetic

    SQLite stores a REAL as an IEEE 754 binary64 number and rounds every
    operation to the nearest one.  The embedding above computes with exact
    rationals, so it hides that rounding; this module embeds the
    expressions of the script whose stored values depend on it, over
    binary64 as [SpecFloat] specifies it, on columns that hold no
    [NULL]. *)

Module Real64.

Definition real : Type := spec_float.

Definition prec : Z := 53.
Definition emax : Z := 1024.

Definition add : real → real → real := SFadd prec emax.
Definition sub : real → real → real := SFsub prec emax.
Definition mul : real → real → real := SFmul prec emax.
Definition div : real → real → real := SFdiv prec emax.
Definition lt : real → real → bool := SFltb.

(** An integer used as a REAL, and the REAL nearest to the decimal
    [m / 10^d]. *)
Definition of_Z (z : Z) : real := binary_normalize prec emax z 0 false.

Definition decimal (m d : Z) : real := div (of_Z m) (of_Z (10 ^ d)).

(** [SUM] over a REAL column: a running total to which the value of one
    row after the other is added, in the order in which the rows are
    visited; the total is rounded after every row. *)
Definition sum (l : list real) : real := foldl add (of_Z 0) l.

(** ** [build_vendor_rollup]

    The three REAL columns of a [vendor_sales_summary] row that the margin
    of the roll-up reads. *)
Record summary_row := {
  TotalSalesDollars : real;
  TotalPurchaseDollars : real;
  FreightCost : real
}.

(** [SUM(TotalSalesDollars - TotalPurchaseDollars - FreightCost)] over the
    rows of one vendor. *)
Definition GrossProfit (rows : list summary_row) : real :=
  sum ((λ r, sub (sub (TotalSalesDollars r) (TotalPurchaseDollars r))
                 (FreightCost r)) <$> rows).

(** The [CASE] of [ProfitMargin] over the rows of one vendor. *)
Definition ProfitMargin (rows : list summary_row) : real :=
  let sales := sum (TotalSalesDollars <$> rows) in
  if lt (of_Z 0) sales
  then div (mul (of_Z 100)
                (sub (sub sales (sum (TotalPurchaseDollars <$> rows)))
                     (sum (FreightCost <$> rows))))
           sales
  else of_Z 0.

(** 100 times the stored [GrossProfit] over the stored sales dollars. *)
Definition margin_of_gross_profit (rows : list summary_row) : real :=
  let sales := sum (TotalSalesDollars <$> rows) in
  if lt (of_Z 0) sales
  then div (mul (of_Z 100) (GrossProfit rows)) sales
  else of_Z 0.

(** ** The join of [sales_agg]

    [FROM sales s JOIN purchases p ON p.InventoryId = s.InventoryId] runs
    as a nested loop.  SQL does not say which table the outer loop scans;
    SQLite's planner decides, and from the statistics of [ANALYZE] once
    they exist. *)
Record sale := {
  sale_InventoryId : Z;
  sale_Brand : Z;
  SalesDollars : real
}.

Record purchase := {
  purchase_InventoryId : Z;
  VendorNumber : Z;
  VendorName : string
}.

Inductive outer_loop := over_sales | over_purchases.

Definition joined (o : outer_loop) (sales : list sale)
    (purchases : list purchase) : list (sale * purchase) :=
  match o with
  | over_sales =>
    s ← sales;
    p ← filter (λ p, purchase_InventoryId p = sale_InventoryId s) purchases;
    [(s, p)]
  | over_purchases =>
    p ← purchases;
    s ← filter (λ s, purchase_InventoryId p = sale_InventoryId s) sales;
    [(s, p)]
  end.




Module Sample.

(** Two brand rows of one vendor: sales 0.3 and 0.7, purchases 0.1 and
    0.4, no freight. *)
Definition rows : list summary_row :=
  [ {| TotalSalesDollars := decimal 3 1;
       TotalPurchaseDollars := decimal 1 1;
       FreightCost := of_Z 0 |};
    {| TotalSalesDollars := decimal 7 1;
       TotalPurchaseDollars := decimal 4 1;
       FreightCost := of_Z 0 |} ].

(** Three sales of brand 7, of 0.2, 0.1 and 0.3 dollars, the first and the
    third of one inventory item; both items bought from vendor 1. *)
Definition sales : list sale :=
  [ {| sale_InventoryId := 10; sale_Brand := 7;
       SalesDollars := decimal 2 1 |};
    {| sale_InventoryId := 20; sale_Brand := 7;
       SalesDollars := decimal 1 1 |};
    {| sale_InventoryId := 10; sale_Brand := 7;
       SalesDollars := decimal 3 1 |} ].

Definition purchases : list purchase :=
  [ {| purchase_InventoryId := 10; VendorNumber := 1;
       VendorName := "ACME" |};
    {| purchase_InventoryId := 20; VendorNumber := 1;
       VendorName := "ACME" |} ].


End Sample.

End Real64.

(** * The to-do list of [todo.py]

    [todo.py] keeps a list of tasks in the file [tasks.json]; each command
    loads the list, changes it and writes it back.  The file is embedded
    by its parsed content, [None] while it does not exist, and a command as
    a function from the file to the file it leaves and the lines it
    prints.  The content is taken to be what the script itself writes: an
    array of objects with an integer ["id"], a string ["title"] and a
    boolean ["done"]. *)

Module Todo.

Local Open Scope Z_scope.

Record task := mk_task {
  id : Z;
  title : string;
  done : bool
}.

(** [tasks.json]. *)
Definition file := option (list task).

(** What the [print] calls of a command wrote, one entry for each call. *)
Definition output := list string.

Definition load_tasks (DATA : file) : list task :=
  match DATA with
  | Some tasks => tasks
  | None => []
  end.

Definition save_tasks (tasks : list task) : file := Some tasks.

Definition add_task (title : string) (DATA : file) : file * output :=
  let tasks := load_tasks DATA in
  let tasks :=
    tasks ++ [ {| id := Z.of_nat (length tasks) + 1;
                  title := title;
                  done := false |} ] in
  (save_tasks tasks, ["Added: " +:+ title]).

(** The format [{t['id']:>2}]: right-aligned in a field of at least two
    characters. *)
Definition right2 (s : string) : string :=
  String.concat "" (replicate (2 - String.length s)%nat " ") +:+ s.

Definition status (t : task) : string :=
  if done t then "✓" else "•".

Definition list_tasks (DATA : file) : file * output :=
  let tasks := load_tasks DATA in
  match tasks with
  | [] => (DATA, ["No tasks yet."])
  | _ =>
    (DATA,
     (λ t, right2 (pretty (id t)) +:+ " " +:+ status t +:+ " " +:+ title t)
     <$> tasks)
  end.

(** The loop of [done_task]: the first task with the given id is marked,
    and the loop ends there; [None] when the loop runs to its end. *)
Fixpoint mark_done (task_id : Z) (tasks : list task)
  : option (list task * task) :=
  match tasks with
  | [] => None
  | t :: rest =>
    if decide (id t = task_id)
    then
      let t := {| id := id t; title := title t; done := true |} in
      Some (t :: rest, t)
    else
      '(rest, found) ← mark_done task_id rest;
      Some (t :: rest, found)
  end.

Definition done_task (task_id : Z) (DATA : file) : file * output :=
  let tasks := load_tasks DATA in
  match mark_done task_id tasks with
  | Some (tasks, t) => (save_tasks tasks, ["Marked done: " +:+ title t])
  | None => (DATA, ["Task not found."])
  end.

(** [enumerate(tasks, start=1)] with the assignment [t["id"] = i]. *)
Definition renumber (tasks : list task) : list task :=
  imap (λ i t, {| id := Z.of_nat i + 1; title := title t; done := done t |})
       tasks.

Definition delete_task (task_id : Z) (DATA : file) : file * output :=
  let tasks := load_tasks DATA in
  let tasks := filter (λ t, id t ≠ task_id) tasks in
  let tasks := renumber tasks in
  (save_tasks tasks, ["Deleted task " +:+ pretty task_id]).

(** The parsed command line: the sub-command with its arguments. *)
Inductive args :=
| cmd_add (title : list string)
| cmd_list
| cmd_done (id : Z)
| cmd_del (id : Z).

Definition main (a : args) (DATA : file) : file * output :=
  match a with
  | cmd_add title => add_task (String.concat " " title) DATA
  | cmd_list => list_tasks DATA
  | cmd_done id => done_task id DATA
  | cmd_del id => delete_task id DATA
  end.

(** One invocation of the script after another, each on the file the one
    before left. *)
Definition runs (cmds : list args) (DATA : file) : file :=
  foldl (λ DATA a, (main a DATA).1) DATA cmds.

(** The ids of a list of tasks are 1, 2, ... in list order. *)
Definition numbered (tasks : list task) : Prop :=
  id <$> tasks = seqZ 1 (Z.of_nat (length tasks)).

(** A task with its [done] flag set. *)
Definition marked (t : task) : task :=
  {| id := id t; title := title t; done := true |}.

(** A task after the task with id [k] before it in a numbered list has been
    deleted: the tasks behind the deleted one move up by one. *)
Definition moved_up (k : Z) (t : task) : task :=
  {| id := if decide (1 ≤ k < id t) then id t - 1 else id t;
     title := title t;
     done := done t |}.

Module Sample.

Definition tasks : list task :=
  [ {| id := 1; title := "buy milk"; done := false |};
    {| id := 2; title := "call the vendor"; done := true |};
    {| id := 3; title := "file the invoices"; done := false |} ]%string.

End Sample.

End Todo.

(** Membership of a computed row in a computed table. *)
Ltac in_table :=
  vm_compute;
  repeat first [apply list_elem_of_here | apply list_elem_of_further].

(** * Facts about the relational operators *)

Section RelationalFacts.
Context {A B : Type}.

Lemma group_by_keys `{EqDecision K} (key : A → K) (l : list A) :
  (fst <$> group_by key l) = remove_dups (key <$> l).
Proof.
  unfold group_by. rewrite <- list_fmap_compose.
  induction (remove_dups (key <$> l)) as [|k ks IH]; [done|].
  rewrite !fmap_cons. simpl. f_equal. apply IH.
Qed.

Lemma elem_of_group_by `{EqDecision K} (key : A → K) (l : list A) g :
  g ∈ group_by key l ↔
  g.1 ∈ key <$> l ∧ g.2 = filter (λ a, key a = g.1) l.
Proof.
  unfold group_by. rewrite list_elem_of_fmap. split.
  - intros (k & -> & Hk). simpl. split; [|done].
    by rewrite elem_of_remove_dups in Hk.
  - intros [Hk Hg]. exists g.1. split.
    + destruct g as [k rows]. simpl in *. by rewrite Hg.
    + by rewrite elem_of_remove_dups.
Qed.

Lemma group_by_nonempty `{EqDecision K} (key : A → K) (l : list A) g :
  g ∈ group_by key l → g.2 ≠ [].
Proof.
  intros [Hk Hg]%elem_of_group_by.
  apply list_elem_of_fmap in Hk as (a & Ha & Hin).
  intros Hnil. rewrite Hnil in Hg.
  assert (a ∈ filter (λ a, key a = g.1) l) as Hf
    by (apply list_elem_of_filter; done).
  rewrite <- Hg in Hf. by apply elem_of_nil in Hf.
Qed.

(** A predicate that pins the key down selects at most one row of a
    table whose keys are pairwise distinct. *)
Lemma filter_unique_key {K} (k : B → K) (P : B → Prop)
    `{∀ b, Decision (P b)} (r : list B) (k0 : K) :
  NoDup (k <$> r) → (∀ b, b ∈ r → P b → k b = k0) →
  (length (filter P r) ≤ 1)%nat.
Proof.
  induction r as [|b r IH]; intros Hnd Hk; [simpl; lia|].
  rewrite fmap_cons in Hnd. apply NoDup_cons in Hnd as [Hb Hnd].
  rewrite filter_cons. destruct (decide (P b)) as [Hp|Hp].
  - assert (filter P r = []) as ->; [|simpl; lia].
    destruct (filter P r) as [|b' r'] eqn:Hf; [done|].
    assert (b' ∈ filter P r) as Hb' by (rewrite Hf; left).
    apply list_elem_of_filter in Hb' as [Hp' Hin].
    exfalso. apply Hb. apply list_elem_of_fmap. exists b'. split; [|done].
    rewrite (Hk b) by (done || left).
    symmetry. apply Hk; [by right|done].
  - apply IH; [done|]. intros b' Hin. apply Hk. by right.
Qed.

(** With at most one match per left row, a [LEFT JOIN] is a lookup. *)
Lemma left_join_lookup (on : A → B → bool) (l : list A) (r : list B) :
  (∀ a, a ∈ l → (length (filter (λ b, on a b = true) r) ≤ 1)%nat) →
  left_join on l r
  = (λ a, (a, head (filter (λ b, on a b = true) r))) <$> l.
Proof.
  unfold left_join. induction l as [|a l IH]; intros Hl; [done|].
  rewrite bind_cons, fmap_cons, IH by (intros a' Ha'; apply Hl; by right).
  specialize (Hl a (list_elem_of_here _ _)).
  destruct (filter (λ b, on a b = true) r) as [|b [|b' ms]]; simpl in *;
    [done|done|lia].
Qed.

(** Looking a key up in a grouped table. *)
Lemma head_filter_keyed {K C} (Q : K → Prop) `{∀ k, Decision (Q k)}
    `{EqDecision K} (mk : K → C) (kf : C → K) (ks : list K) (k0 : K) :
  (∀ k, kf (mk k) = k) → (∀ k, Q k → k = k0) →
  head (filter (λ x, Q (kf x)) (mk <$> ks))
  = if decide (Q k0 ∧ k0 ∈ ks) then Some (mk k0) else None.
Proof.
  intros Hkf HQ. induction ks as [|k ks IH].
  - simpl. destruct (decide _) as [[_ Hin]|]; [|done].
    by apply elem_of_nil in Hin.
  - rewrite fmap_cons, filter_cons, Hkf.
    destruct (decide (Q k)) as [Hq|Hq].
    + simpl. assert (k = k0) as -> by auto.
      rewrite decide_True; [done|]. split; [done|left].
    + rewrite IH. destruct (decide (Q k0 ∧ k0 ∈ ks)) as [[Hq0 Hin]|Hn].
      * rewrite decide_True; [done|]. split; [done|by right].
      * rewrite decide_False; [done|]. intros [Hq0 Hin].
        apply elem_of_cons in Hin as [->|Hin]; [done|]. by apply Hn.
Qed.

End RelationalFacts.

(** * Facts about [SUM] *)

Section SumFacts.

Lemma plus_skip_assoc a b c :
  Sql.plus_skip a (Sql.plus_skip b c) = Sql.plus_skip (Sql.plus_skip a b) c.
Proof.
  destruct a, b, c; simpl; try done. by rewrite Qcplus_assoc.
Qed.

Lemma plus_skip_comm a b : Sql.plus_skip a b = Sql.plus_skip b a.
Proof. destruct a, b; simpl; try done. by rewrite Qcplus_comm. Qed.

Lemma sum_cons a l : Sql.sum (a :: l) = Sql.plus_skip a (Sql.sum l).
Proof.
  unfold Sql.sum, Sql.non_null.
  change (omap id (a :: l))
    with (match a with Some y => y :: omap id l | None => omap id l end).
  destruct a as [x|], (omap id l) as [|y vs]; simpl;
    rewrite ?Qcplus_0_r; done.
Qed.

(** [SUM] over a non-empty column without [NULL]s is not [NULL]. *)
Lemma sum_is_Some l :
  l ≠ [] → Forall is_Some l → is_Some (Sql.sum l).
Proof.
  destruct l as [|a l]; [done|]. intros _ Hall.
  apply Forall_cons in Hall as [[x ->] _].
  rewrite sum_cons. destruct (Sql.sum l); by eexists.
Qed.

Lemma filter_False {A} (l : list A) (P : A → Prop) `{∀ a, Decision (P a)} :
  (∀ a, a ∈ l → ¬ P a) → filter P l = [].
Proof.
  induction l as [|a l IH]; intros Hn; [done|].
  rewrite filter_cons_False by (apply Hn; left).
  apply IH. intros a' Ha'. apply Hn. by right.
Qed.

Lemma filter_ext_in {A} (l : list A) (P Q : A → Prop)
    `{∀ a, Decision (P a)} `{∀ a, Decision (Q a)} :
  (∀ a, a ∈ l → P a ↔ Q a) → filter P l = filter Q l.
Proof.
  induction l as [|a l IH]; intros Hpq; [done|].
  rewrite !filter_cons, IH by (intros a' Ha'; apply Hpq; by right).
  specialize (Hpq a (list_elem_of_here _ _)).
  destruct (decide (P a)), (decide (Q a)); tauto.
Qed.

Context {A : Type} (f : A → num).

(** Two disjoint selections add up. *)
Lemma sum_filter_or (P Q : A → Prop) `{∀ a, Decision (P a)}
    `{∀ a, Decision (Q a)} (l : list A) :
  (∀ a, a ∈ l → P a → Q a → False) →
  Sql.sum (f <$> filter (λ a, P a ∨ Q a) l)
  = Sql.plus_skip (Sql.sum (f <$> filter P l)) (Sql.sum (f <$> filter Q l)).
Proof.
  induction l as [|a l IH]; intros Hdis; [done|].
  specialize (IH (λ a' Ha', Hdis a' (list_elem_of_further _ _ _ Ha'))).
  specialize (Hdis a (list_elem_of_here _ _)).
  rewrite !filter_cons.
  destruct (decide (P a)) as [Hp|Hp], (decide (Q a)) as [Hq|Hq].
  - tauto.
  - rewrite decide_True by tauto.
    rewrite !fmap_cons, !sum_cons, IH. apply plus_skip_assoc.
  - rewrite decide_True by tauto.
    rewrite !fmap_cons, !sum_cons, IH.
    rewrite !plus_skip_assoc. f_equal. apply plus_skip_comm.
  - rewrite decide_False by tauto. apply IH.
Qed.

(** Summing the per-group [SUM]s of distinct groups is summing the rows
    of those groups. *)
Lemma sum_of_group_sums `{EqDecision K} (key : A → K) (l : list A)
    (ks : list K) :
  NoDup ks →
  Sql.sum ((λ k, Sql.sum (f <$> filter (λ a, key a = k) l)) <$> ks)
  = Sql.sum (f <$> filter (λ a, key a ∈ ks) l).
Proof.
  induction 1 as [|k ks Hk Hnd IH].
  - rewrite (filter_False l (λ a, key a ∈ [])); [done|].
    intros a _. apply not_elem_of_nil.
  - rewrite fmap_cons, sum_cons, IH.
    rewrite <- (sum_filter_or (λ a, key a = k) (λ a, key a ∈ ks)).
    + f_equal. f_equal. apply filter_ext_in. intros a _.
      rewrite elem_of_cons. done.
    + intros a _ <- Hin. done.
Qed.

End SumFacts.

(** * Looking up a row of a grouped table *)

Section GroupedLookup.
Context {A C K : Type} `{EqDecision K}.
Variables (key : A → K) (mk : K * list A → C) (kf : C → K) (l : list A).
Hypothesis Hkf : ∀ g, kf (mk g) = g.1.

Lemma grouped_keys : kf <$> (mk <$> group_by key l) = remove_dups (key <$> l).
Proof.
  rewrite <- group_by_keys, <- list_fmap_compose.
  apply list_fmap_ext. intros _ g _. apply Hkf.
Qed.

Section Match.
Variables (m : K → bool) (k0 : K).
Hypothesis Hm : ∀ k, m k = true → k = k0.

Lemma grouped_match_unique :
  (length (filter (λ x, m (kf x) = true) (mk <$> group_by key l)) ≤ 1)%nat.
Proof.
  apply (filter_unique_key kf _ _ k0).
  - rewrite grouped_keys. apply NoDup_remove_dups.
  - intros x _. apply Hm.
Qed.

Lemma col_lookup_grouped {D} (c : C → option D)
    (agg : list A → option D) :
  (∀ g, c (mk g) = agg g.2) → agg [] = None →
  col c (head (filter (λ x, m (kf x) = true) (mk <$> group_by key l)))
  = agg (filter (λ a, m (key a) = true) l).
Proof.
  intros Hc Hnil. unfold group_by. rewrite <- list_fmap_compose.
  pose proof (head_filter_keyed (λ k, m k = true)
                (mk ∘ (λ k, (k, filter (λ a, key a = k) l))) kf
                (remove_dups (key <$> l)) k0
                (λ k, Hkf (k, filter (λ a, key a = k) l)) Hm) as Hhead.
  simpl in Hhead. rewrite Hhead. clear Hhead.
  destruct (decide _) as [[Hm0 Hin]|Hn]; simpl.
  - rewrite Hc. simpl. f_equal. apply filter_ext_in. intros a _. split.
    + by intros ->.
    + apply Hm.
  - rewrite filter_False; [done|]. intros a Ha Hma.
    apply Hn. rewrite <- (Hm _ Hma). split; [done|].
    rewrite elem_of_remove_dups. apply list_elem_of_fmap. by exists a.
Qed.

End Match.

End GroupedLookup.

(** * The three [LEFT JOIN]s of [joined] are lookups *)

Lemma sql_eq_true `{EqDecision T} (a b : option T) :
  Sql.eq a b = true → a = b.
Proof.
  destruct a, b; simpl; try done.
  intros Heq. by apply bool_decide_eq_true in Heq as ->.
Qed.

Lemma filter_fmap {A B} (f : A → B) (P : B → Prop) `{∀ b, Decision (P b)}
    (l : list A) :
  filter P (f <$> l) = f <$> filter (λ a, P (f a)) l.
Proof.
  induction l as [|a l IH]; [done|].
  rewrite fmap_cons, !filter_cons, IH. by destruct (decide (P (f a))).
Qed.

Lemma brand_match_key v b k : brand_match v b k = true → k = (v, b).
Proof.
  destruct k as [kv kb]. unfold brand_match. simpl.
  intros [Hv Hb]%andb_true_iff.
  by rewrite (sql_eq_true _ _ Hv), (sql_eq_true _ _ Hb).
Qed.

Lemma brand_purch_match_unique p v b :
  (length (filter (λ x, Sql.eq (BrandPurch.VendorNumber x) v
                        && Sql.eq (BrandPurch.Brand x) b = true)
                  (brand_purch p)) ≤ 1)%nat.
Proof.
  unfold brand_purch.
  apply grouped_match_unique
    with (kf := λ x, (BrandPurch.VendorNumber x, BrandPurch.Brand x))
         (m := brand_match v b) (k0 := (v, b)).
  - by intros [[] ?].
  - apply brand_match_key.
Qed.

Lemma lookup_brand_purch_dollars p v b :
  col BrandPurch.BrandPurchaseDollars
      (head (filter (λ x, Sql.eq (BrandPurch.VendorNumber x) v
                          && Sql.eq (BrandPurch.Brand x) b = true)
                    (brand_purch p)))
  = brand_purchase_dollars p v b.
Proof.
  unfold brand_purch, brand_purchase_dollars.
  apply col_lookup_grouped
    with (kf := λ x, (BrandPurch.VendorNumber x, BrandPurch.Brand x))
         (m := brand_match v b) (k0 := (v, b))
         (agg := λ rows, Sql.sum (purchase_dollars <$> rows)).
  - by intros [[] ?].
  - apply brand_match_key.
  - done.
  - done.
Qed.

Lemma lookup_brand_purch_quantity p v b :
  col BrandPurch.BrandPurchaseQuantity
      (head (filter (λ x, Sql.eq (BrandPurch.VendorNumber x) v
                          && Sql.eq (BrandPurch.Brand x) b = true)
                    (brand_purch p)))
  = brand_purchase_quantity p v b.
Proof.
  unfold brand_purch, brand_purchase_quantity.
  apply col_lookup_grouped
    with (kf := λ x, (BrandPurch.VendorNumber x, BrandPurch.Brand x))
         (m := brand_match v b) (k0 := (v, b))
         (agg := λ rows, Sql.sum (PurchaseRecord.Quantity <$> rows)).
  - by intros [[] ?].
  - apply brand_match_key.
  - done.
  - done.
Qed.

Lemma bp_vendor_tot_match_unique bp v :
  (length (filter (λ t, Sql.eq (BpVendorTot.VendorNumber t) v = true)
                  (bp_vendor_tot bp)) ≤ 1)%nat.
Proof.
  unfold bp_vendor_tot.
  apply grouped_match_unique
    with (kf := BpVendorTot.VendorNumber) (m := λ k, Sql.eq k v) (k0 := v).
  - done.
  - intros k. apply sql_eq_true.
Qed.

Lemma vi_match_unique inv v :
  (length (filter (λ x, Sql.eq (Vi.VendorNumber x) v = true) (vi inv))
   ≤ 1)%nat.
Proof.
  unfold vi.
  apply grouped_match_unique
    with (kf := Vi.VendorNumber) (m := λ k, Sql.eq k v) (k0 := v).
  - done.
  - intros k. apply sql_eq_true.
Qed.

Lemma lookup_vi_freight inv v :
  col Vi.Freight
      (head (filter (λ x, Sql.eq (Vi.VendorNumber x) v = true) (vi inv)))
  = invoice_freight inv v.
Proof.
  unfold vi, invoice_freight.
  apply col_lookup_grouped
    with (kf := Vi.VendorNumber) (m := λ k, Sql.eq k v) (k0 := v)
         (agg := λ rows, Sql.sum (VendorInvoiceRecord.Freight <$> rows)).
  - done.
  - intros k. apply sql_eq_true.
  - done.
  - done.
Qed.

(** The vendor total of [bp_vendor_tot], a [SUM] of per-brand [SUM]s, is
    the [SUM] over the vendor's purchase rows. *)
Lemma vendor_total_direct p v :
  Sql.sum (BrandPurch.BrandPurchaseDollars
           <$> filter (λ b, Sql.eq (BrandPurch.VendorNumber b) v = true)
                      (brand_purch p))
  = vendor_purchase_dollars p v.
Proof.
  unfold brand_purch, group_by, vendor_purchase_dollars.
  rewrite <- list_fmap_compose, filter_fmap, <- list_fmap_compose. simpl.
  change (λ p0, (PurchaseRecord.VendorNumber p0, PurchaseRecord.Brand p0))
    with brand_key.
  pose proof (sum_of_group_sums purchase_dollars brand_key p
                (filter (λ k : option Z * option Z, Sql.eq k.1 v = true)
                        (remove_dups (brand_key <$> p)))) as Hsum.
  etrans; [apply Hsum; apply NoDup_filter, NoDup_remove_dups|].
  f_equal. f_equal. apply filter_ext_in. intros a Ha.
  rewrite list_elem_of_filter, elem_of_remove_dups. split; [tauto|].
  intros Hv. split; [done|]. apply list_elem_of_fmap. by exists a.
Qed.

Lemma lookup_bp_vendor_tot p v :
  col BpVendorTot.VendorBrandPurchDollars
      (head (filter (λ t, Sql.eq (BpVendorTot.VendorNumber t) v = true)
                    (bp_vendor_tot (brand_purch p))))
  = vendor_purchase_dollars p v.
Proof.
  rewrite <- vendor_total_direct. unfold bp_vendor_tot.
  apply col_lookup_grouped
    with (kf := BpVendorTot.VendorNumber) (m := λ k, Sql.eq k v) (k0 := v)
         (agg := λ rows, Sql.sum (BrandPurch.BrandPurchaseDollars <$> rows)).
  - done.
  - intros k. apply sql_eq_true.
  - done.
  - done.
Qed.

Lemma joined_rows (sa : list SalesAgg.row) p inv :
  joined sa (brand_purch p) (bp_vendor_tot (brand_purch p)) (vi inv)
  = joined_row p inv <$> sa.
Proof.
  unfold joined.
  rewrite (left_join_lookup _ sa)
    by (intros a _; apply brand_purch_match_unique).
  rewrite (left_join_lookup _ (_ <$> sa))
    by (intros j _; apply bp_vendor_tot_match_unique).
  rewrite (left_join_lookup _ (_ <$> (_ <$> sa)))
    by (intros j _; apply vi_match_unique).
  rewrite <- !list_fmap_compose. apply list_fmap_ext. intros _ a _.
  unfold compose, joined_row, freight_case. simpl.
  by rewrite lookup_brand_purch_dollars, lookup_brand_purch_quantity,
    lookup_bp_vendor_tot, lookup_vi_freight.
Qed.

Lemma select_vendor_sales_summary_rows s p inv :
  select_vendor_sales_summary s p inv
  = (λ a, summary_row (joined_row p inv a)) <$> sales_agg s p.
Proof.
  unfold select_vendor_sales_summary. simpl.
  by rewrite joined_rows, <- list_fmap_compose.
Qed.

(** * Rows of [vendor_sales_summary] *)

Lemma lit_0 : Sql.lit 0 = Some 0.
Proof. done. Qed.

Lemma Qclt_neq_0 (x : Qc) : 0 < x → x ≠ 0.
Proof. intros Hlt ->. by apply (Qclt_not_eq 0 0). Qed.

Lemma div_Some x y : y ≠ 0 → Sql.div (Some x) (Some y) = Some (x / y).
Proof. intros Hy. unfold Sql.div. by rewrite decide_False. Qed.

Lemma coalesce_value (x : num) : Sql.coalesce x (Sql.lit 0) = Some (value x).
Proof. by destruct x. Qed.

Lemma gt_coalesce_0 (x : num) :
  Sql.gt (Sql.coalesce x (Sql.lit 0)) (Sql.lit 0) = bool_decide (0 < value x).
Proof. by rewrite coalesce_value. Qed.

Lemma value_pos_Some (x : num) : 0 < value x → x = Some (value x).
Proof.
  destruct x as [q|]; [done|]. simpl. intros H. by apply Qclt_not_eq in H.
Qed.

(** The freight [CASE] computes the proportional share, and never [NULL]. *)
Lemma freight_formula (fr bpd tot : num) :
  (if Sql.gt (Sql.coalesce fr (Sql.lit 0)) (Sql.lit 0)
      && Sql.gt (Sql.coalesce tot (Sql.lit 0)) (Sql.lit 0)
   then Sql.div
          (Sql.mul (Sql.mul fr (Sql.coalesce bpd (Sql.lit 0))) (Sql.lit 1))
          tot
   else Sql.lit 0)
  = Some (allocated_freight (value fr) (value bpd) (value tot)).
Proof.
  rewrite !gt_coalesce_0, coalesce_value. unfold allocated_freight.
  destruct (decide (0 < value fr ∧ 0 < value tot)) as [[HF HT]|Hn].
  - rewrite !bool_decide_eq_true_2 by done.
    rewrite (value_pos_Some fr HF), (value_pos_Some tot HT). simpl.
    rewrite decide_False by by apply Qclt_neq_0.
    f_equal. f_equal. apply Qcmult_1_r.
  - destruct (bool_decide (0 < value fr)) eqn:HF; [|done].
    destruct (bool_decide (0 < value tot)) eqn:HT; [|done].
    apply bool_decide_eq_true in HF, HT. tauto.
Qed.

Lemma summary_row_origin s p inv r :
  r ∈ select_vendor_sales_summary s p inv →
  ∃ a, a ∈ sales_agg s p ∧ r = summary_row (joined_row p inv a).
Proof.
  rewrite select_vendor_sales_summary_rows, list_elem_of_fmap.
  intros (a & -> & Ha). by exists a.
Qed.

Lemma summary_row_freight s p inv r :
  r ∈ select_vendor_sales_summary s p inv →
  let v := BrandSalesSummary.VendorNumber r in
  let P := value (brand_purchase_dollars p v (BrandSalesSummary.Brand r)) in
  BrandSalesSummary.TotalPurchaseDollars r = Some P
  ∧ BrandSalesSummary.FreightCost r
    = Some (allocated_freight (value (invoice_freight inv v)) P
              (value (vendor_purchase_dollars p v))).
Proof.
  intros (a & _ & ->)%summary_row_origin. simpl. split.
  - apply coalesce_value.
  - apply freight_formula.
Qed.



(** C5.  In every row of [vendor_sales_summary], [GrossProfit] is exactly
    [TotalSalesDollars - TotalPurchaseDollars - FreightCost], and
    [ProfitMargin] is [100 * GrossProfit / TotalSalesDollars] when
    [TotalSalesDollars > 0] and 0 otherwise; none of them is [NULL]. *)
Theorem gross_profit_and_margin s p inv r :
  r ∈ select_vendor_sales_summary s p inv →
  ∃ S P F G : Qc,
    BrandSalesSummary.TotalSalesDollars r = Some S
    ∧ BrandSalesSummary.TotalPurchaseDollars r = Some P
    ∧ BrandSalesSummary.FreightCost r = Some F
    ∧ BrandSalesSummary.GrossProfit r = Some G
    ∧ G = S - P - F
    ∧ BrandSalesSummary.ProfitMargin r
      = Some (if decide (0 < S) then Sql.qc 100 * G / S else 0).
Proof.
  intros (a & _ & ->)%summary_row_origin.
  unfold summary_row. simpl.
  rewrite freight_formula, !coalesce_value. simpl.
  eexists _, _, _, _. repeat (split; [reflexivity|]).
  case_bool_decide as HS; change (Sql.qc 0) with (Q2Qc 0) in HS.
  - rewrite (decide_True (P := 0 < _)) by done.
    by rewrite (decide_False (P := _ = 0)) by by apply Qclt_neq_0.
  - by rewrite (decide_False (P := 0 < _)).
Qed.

Lemma gross_profit_and_margin_witness :
  ∃ r, head Sample.summary = Some r
       ∧ ∃ S P F G : Qc,
           BrandSalesSummary.TotalSalesDollars r = Some S
           ∧ BrandSalesSummary.TotalPurchaseDollars r = Some P
           ∧ BrandSalesSummary.FreightCost r = Some F
           ∧ BrandSalesSummary.GrossProfit r = Some G
           ∧ G = S - P - F
           ∧ BrandSalesSummary.ProfitMargin r
             = Some (if decide (0 < S) then Sql.qc 100 * G / S else 0).
Proof.
  eexists. split; [vm_compute; reflexivity|].
  apply (gross_profit_and_margin Sample.sales Sample.purchases
           Sample.vendor_invoice).
  in_table.
Defined.

(** * One row per key *)

Lemma summary_keys s p inv :
  summary_key <$> select_vendor_sales_summary s p inv
  = remove_dups (join_key <$> sales_purchases_join s p).
Proof.
  rewrite select_vendor_sales_summary_rows, <- list_fmap_compose.
  unfold sales_agg. rewrite <- list_fmap_compose.
  rewrite <- (group_by_keys join_key). apply list_fmap_ext.
  by intros _ [[[v n] b] rows] _.
Qed.

Lemma elem_of_sales_purchases_join s p sp :
  sp ∈ sales_purchases_join s p → sp.2 ∈ p.
Proof.
  unfold sales_purchases_join, inner_join. rewrite list_elem_of_bind.
  intros (a & Hsp & _). apply list_elem_of_fmap in Hsp as (b & -> & Hb).
  by apply list_elem_of_filter in Hb as [_ Hb].
Qed.

(** C2 (amended).  [vendor_sales_summary] has exactly one row for each
    (VendorNumber, VendorName, Brand) triple of the sales-to-purchases join
    and no other rows; when the purchases give every vendor number a single
    name, that is one row for each (VendorNumber, Brand) pair of the join. *)
Theorem one_row_per_vendor_name_brand s p inv :
  let vss := select_vendor_sales_summary s p inv in
  NoDup (summary_key <$> vss)
  ∧ (∀ k, k ∈ summary_key <$> vss ↔ k ∈ join_key <$> sales_purchases_join s p)
  ∧ ((∀ p1 p2, p1 ∈ p → p2 ∈ p →
        PurchaseRecord.VendorNumber p1 = PurchaseRecord.VendorNumber p2 →
        PurchaseRecord.VendorName p1 = PurchaseRecord.VendorName p2) →
     NoDup (vendor_brand <$> vss)
     ∧ ∀ k, k ∈ vendor_brand <$> vss
            ↔ k ∈ join_vendor_brand <$> sales_purchases_join s p).
Proof.
  simpl. split; [|split].
  - rewrite summary_keys. apply NoDup_remove_dups.
  - intros k. by rewrite summary_keys, elem_of_remove_dups.
  - intros Hname.
    assert (vendor_brand <$> select_vendor_sales_summary s p inv
            = (λ k : option Z * option string * option Z, (k.1.1, k.2))
              <$> remove_dups (join_key <$> sales_purchases_join s p)) as ->.
    { rewrite <- (summary_keys s p inv), <- list_fmap_compose. done. }
    split.
    + apply NoDup_fmap_2_strong; [|apply NoDup_remove_dups].
      intros [[v1 n1] b1] [[v2 n2] b2].
      rewrite !elem_of_remove_dups, !list_elem_of_fmap.
      intros (sp1 & Hk1 & Hin1%elem_of_sales_purchases_join)
             (sp2 & Hk2 & Hin2%elem_of_sales_purchases_join) Heq.
      unfold join_key in *. simpl in *. simplify_eq.
      by rewrite (Hname _ _ Hin1 Hin2).
    + intros k. rewrite !list_elem_of_fmap. split.
      * intros (k3 & -> & Hin). rewrite elem_of_remove_dups in Hin.
        apply list_elem_of_fmap in Hin as (sp & -> & Hsp). by exists sp.
      * intros (sp & -> & Hsp). exists (join_key sp). split; [done|].
        rewrite elem_of_remove_dups. apply list_elem_of_fmap. by exists sp.
Qed.

Lemma one_row_per_vendor_name_brand_witness :
  NoDup (vendor_brand <$> Sample.summary).
Proof.
  apply (proj2 (proj2 (one_row_per_vendor_name_brand Sample.sales
                         Sample.purchases Sample.vendor_invoice))).
  intros p1 p2 Hp1 Hp2 _.
  unfold Sample.purchases in Hp1, Hp2.
  rewrite !elem_of_cons, elem_of_nil in Hp1, Hp2.
  by destruct Hp1 as [->|[->|[]]], Hp2 as [->|[->|[]]].
Defined.

(** C2, as stated, fails: a vendor number that the purchases spell in two
    ways gets two rows for one (VendorNumber, Brand) pair of the join. *)
Lemma two_rows_for_one_vendor_brand :
  let vss := select_vendor_sales_summary Sample.sales
               Sample.purchases_two_names Sample.vendor_invoice in
  (Some 1%Z, Some 1%Z)
    ∈ join_vendor_brand
      <$> sales_purchases_join Sample.sales Sample.purchases_two_names
  ∧ ¬ (length (filter (λ r, vendor_brand r = (Some 1%Z, Some 1%Z)) vss)
       ≤ 1)%nat.
Proof.
  split; [in_table|].
  assert (length (filter (λ r, vendor_brand r = (Some 1%Z, Some 1%Z))
                    (select_vendor_sales_summary Sample.sales
                       Sample.purchases_two_names Sample.vendor_invoice))
          = 2%nat) as -> by (vm_compute; reflexivity).
  lia.
Qed.

(** * Freight summed over a vendor's rows *)

Lemma sum0_cons x l : sum0 (x :: l) = value x + sum0 l.
Proof.
  unfold sum0, Sql.non_null.
  change (omap id (x :: l))
    with (match x with Some y => y :: omap id l | None => omap id l end).
  destruct x; simpl; [done|]. by rewrite Qcplus_0_l.
Qed.

Lemma sum0_nil : sum0 [] = 0.
Proof. done. Qed.

Lemma value_sum l : value (Sql.sum l) = sum0 l.
Proof. unfold Sql.sum, sum0. by destruct (Sql.non_null l). Qed.

Lemma elem_of_rows_of v vss r :
  r ∈ rows_of v vss ↔ BrandSalesSummary.VendorNumber r = v ∧ r ∈ vss.
Proof. unfold rows_of. by rewrite list_elem_of_filter. Qed.









(** * No [NULL] in the numeric columns of [vendor_sales_summary] *)

Lemma sum_Some_sum0 l :
  l ≠ [] → Forall is_Some l → Sql.sum l = Some (sum0 l).
Proof.
  intros Hne Hall. destruct (sum_is_Some l Hne Hall) as [x Hx].
  by rewrite <- value_sum, Hx.
Qed.

Lemma summary_row_non_null s p inv r :
  r ∈ select_vendor_sales_summary s p inv →
  is_Some (BrandSalesSummary.TotalSalesQuantity r)
  ∧ is_Some (BrandSalesSummary.TotalSalesDollars r)
  ∧ is_Some (BrandSalesSummary.TotalPurchaseQuantity r)
  ∧ is_Some (BrandSalesSummary.TotalPurchaseDollars r)
  ∧ is_Some (BrandSalesSummary.FreightCost r)
  ∧ BrandSalesSummary.GrossProfit r
    = Some (value (BrandSalesSummary.TotalSalesDollars r)
            - value (BrandSalesSummary.TotalPurchaseDollars r)
            - value (BrandSalesSummary.FreightCost r)).
Proof.
  intros (a & _ & ->)%summary_row_origin.
  unfold summary_row. simpl. rewrite freight_formula, !coalesce_value.
  repeat split; by eexists.
Qed.

Lemma sum0_gross_profit (rows : list BrandSalesSummary.row) :
  (∀ r, r ∈ rows →
     BrandSalesSummary.GrossProfit r
     = Some (value (BrandSalesSummary.TotalSalesDollars r)
             - value (BrandSalesSummary.TotalPurchaseDollars r)
             - value (BrandSalesSummary.FreightCost r))) →
  sum0 (BrandSalesSummary.GrossProfit <$> rows)
  = sum0 (BrandSalesSummary.TotalSalesDollars <$> rows)
    - sum0 (BrandSalesSummary.TotalPurchaseDollars <$> rows)
    - sum0 (BrandSalesSummary.FreightCost <$> rows).
Proof.
  induction rows as [|r rows IH]; intros Hg.
  - rewrite !fmap_nil, !sum0_nil. ring.
  - rewrite !fmap_cons, !sum0_cons, IH
      by (intros r' Hr'; apply Hg; by right).
    rewrite (Hg r) by left. simpl. ring.
Qed.

(** The expression inside the rollup's [SUM(... - ... - ...)] is the
    [GrossProfit] column. *)
Lemma sum0_gross_profit_expr (rows : list BrandSalesSummary.row) :
  (∀ r, r ∈ rows →
     is_Some (BrandSalesSummary.TotalSalesDollars r)
     ∧ is_Some (BrandSalesSummary.TotalPurchaseDollars r)
     ∧ is_Some (BrandSalesSummary.FreightCost r)
     ∧ BrandSalesSummary.GrossProfit r
       = Some (value (BrandSalesSummary.TotalSalesDollars r)
               - value (BrandSalesSummary.TotalPurchaseDollars r)
               - value (BrandSalesSummary.FreightCost r))) →
  (λ r, Sql.sub (Sql.sub (BrandSalesSummary.TotalSalesDollars r)
                         (BrandSalesSummary.TotalPurchaseDollars r))
                (BrandSalesSummary.FreightCost r)) <$> rows
  = BrandSalesSummary.GrossProfit <$> rows.
Proof.
  intros Hrows. apply list_fmap_ext. intros _ r Hr%list_elem_of_lookup_2.
  destruct (Hrows r Hr) as ([S ->] & [P ->] & [F ->] & ->). done.
Qed.

(** * The vendor rollup *)

Lemma rollup_row_origin vss v :
  v ∈ select_vendor_summary_by_vendor vss →
  let rows := rows_of (VendorRollup.VendorNumber v) vss in
  rows ≠ []
  ∧ VendorRollup.VendorName v
    = Sql.max_text (BrandSalesSummary.VendorName <$> rows)
  ∧ VendorRollup.TotalSalesDol_in_summary v
    = Sql.sum (BrandSalesSummary.TotalSalesDollars <$> rows)
  ∧ VendorRollup.GrossProfit v
    = Sql.sum ((λ r, Sql.sub
                       (Sql.sub (BrandSalesSummary.TotalSalesDollars r)
                                (BrandSalesSummary.TotalPurchaseDollars r))
                       (BrandSalesSummary.FreightCost r)) <$> rows)
  ∧ VendorRollup.ProfitMargin v
    = (let sales := Sql.sum (BrandSalesSummary.TotalSalesDollars <$> rows) in
       if Sql.gt sales (Sql.lit 0)
       then Sql.div
              (Sql.mul (Sql.lit 100)
                 (Sql.sub
                    (Sql.sub sales
                       (Sql.sum (BrandSalesSummary.TotalPurchaseDollars
                                 <$> rows)))
                    (Sql.sum (BrandSalesSummary.FreightCost <$> rows))))
              sales
       else Sql.lit 0).
Proof.
  unfold select_vendor_summary_by_vendor. rewrite list_elem_of_fmap.
  intros (g & -> & Hg). simpl.
  pose proof (group_by_nonempty _ _ _ Hg) as Hne.
  apply elem_of_group_by in Hg as [_ Hrows].
  unfold rows_of. by rewrite <- Hrows.
Qed.

Lemma rollup_row_sums vss v :
  v ∈ select_vendor_summary_by_vendor vss →
  let rows := rows_of (VendorRollup.VendorNumber v) vss in
  VendorRollup.TotalSalesQty v
  = Sql.sum (BrandSalesSummary.TotalSalesQuantity <$> rows)
  ∧ VendorRollup.TotalPurchaseDol v
    = Sql.sum (BrandSalesSummary.TotalPurchaseDollars <$> rows)
  ∧ VendorRollup.TotalPurchaseQty v
    = Sql.sum (BrandSalesSummary.TotalPurchaseQuantity <$> rows)
  ∧ VendorRollup.FreightCost v
    = Sql.sum (BrandSalesSummary.FreightCost <$> rows)
  ∧ VendorRollup.BrandCount v
    = Sql.count_distinct (BrandSalesSummary.Brand <$> rows).
Proof.
  unfold select_vendor_summary_by_vendor. rewrite list_elem_of_fmap.
  intros (g & -> & Hg). simpl.
  apply elem_of_group_by in Hg as [_ Hrows].
  unfold rows_of. by rewrite <- Hrows.
Qed.

(** C6.  In every row of [vendor_summary_by_vendor], [ProfitMargin] is
    computed from the rolled-up sums: it is 100 times (summed sales
    dollars - summed purchase dollars - summed freight cost) over the
    summed sales dollars of the vendor's brand rows when the latter is
    positive, and 0 otherwise.  In exact arithmetic the numerator is the
    sum of the brand rows' [GrossProfit], which the row stores as its own
    [GrossProfit]; REAL arithmetic rounds the two apart, as the lemma after
    the witness shows.  It is not the mean of the brand
    margins: on the sample data these are 34 and 130/9, with mean 218/9,
    and the vendor's margin is 150/7. *)
Theorem rollup_margin_from_sums :
  (∀ s p inv v,
     let vss := select_vendor_sales_summary s p inv in
     v ∈ select_vendor_summary_by_vendor vss →
     let rows := rows_of (VendorRollup.VendorNumber v) vss in
     let sales := sum0 (BrandSalesSummary.TotalSalesDollars <$> rows) in
     let purchases := sum0 (BrandSalesSummary.TotalPurchaseDollars <$> rows) in
     let freight := sum0 (BrandSalesSummary.FreightCost <$> rows) in
     let profit := sum0 (BrandSalesSummary.GrossProfit <$> rows) in
     VendorRollup.TotalSalesDol_in_summary v = Some sales
     ∧ VendorRollup.TotalPurchaseDol v = Some purchases
     ∧ VendorRollup.FreightCost v = Some freight
     ∧ VendorRollup.GrossProfit v = Some profit
     ∧ VendorRollup.ProfitMargin v
       = Some (if decide (0 < sales)
               then Sql.qc 100 * (sales - purchases - freight) / sales
               else 0)
     ∧ sales - purchases - freight = profit)
  ∧ (λ r, shown (BrandSalesSummary.ProfitMargin r)) <$> Sample.summary
    = [Some 34%Q; Some (130 # 9)%Q]
  ∧ this (sum0 (BrandSalesSummary.ProfitMargin <$> Sample.summary)
          / Sql.qc 2)
    = (218 # 9)%Q
  ∧ (λ v, shown (VendorRollup.ProfitMargin v))
    <$> select_vendor_summary_by_vendor Sample.summary
    = [Some (150 # 7)%Q].
Proof.
  split; [|repeat split; vm_compute; reflexivity].
  intros s p inv v vss Hv.
  destruct (rollup_row_origin vss v Hv) as (Hne & _ & HS & HG & HM).
  destruct (rollup_row_sums vss v Hv) as (_ & HP & _ & HF & _).
  simpl. set (rows := rows_of (VendorRollup.VendorNumber v) vss) in *.
  assert (∀ r, r ∈ rows → r ∈ vss) as Hsub
    by (intros r [_ Hr]%elem_of_rows_of; done).
  assert (∀ r, r ∈ rows →
            is_Some (BrandSalesSummary.TotalSalesDollars r)
            ∧ is_Some (BrandSalesSummary.TotalPurchaseDollars r)
            ∧ is_Some (BrandSalesSummary.FreightCost r)
            ∧ BrandSalesSummary.GrossProfit r
              = Some (value (BrandSalesSummary.TotalSalesDollars r)
                      - value (BrandSalesSummary.TotalPurchaseDollars r)
                      - value (BrandSalesSummary.FreightCost r))) as Hcols.
  { intros r Hr%Hsub. apply summary_row_non_null in Hr. tauto. }
  assert (∀ c : BrandSalesSummary.row → num,
            (∀ r, r ∈ rows → is_Some (c r)) →
            Sql.sum (c <$> rows) = Some (sum0 (c <$> rows))) as Hsum.
  { intros c Hc. apply sum_Some_sum0.
    - by destruct rows.
    - apply Forall_fmap, Forall_forall. intros r Hr. by apply Hc. }
  rewrite sum0_gross_profit_expr in HG by done.
  rewrite HS, HP, HF, HG, HM.
  rewrite !Hsum by (intros r Hr; destruct (Hcols r Hr) as (?&?&?&Hgp);
                    rewrite ?Hgp; done).
  assert (sum0 (BrandSalesSummary.GrossProfit <$> rows)
          = sum0 (BrandSalesSummary.TotalSalesDollars <$> rows)
            - sum0 (BrandSalesSummary.TotalPurchaseDollars <$> rows)
            - sum0 (BrandSalesSummary.FreightCost <$> rows)) as Hgp.
  { apply sum0_gross_profit. intros r Hr. by apply Hcols. }
  repeat split; simpl; [|done].
  case_bool_decide as HS'; change (Sql.qc 0) with (Q2Qc 0) in HS'.
  - rewrite (decide_True (P := 0 < _)) by done.
    by rewrite (decide_False (P := _ = 0)) by by apply Qclt_neq_0.
  - by rewrite (decide_False (P := 0 < _)).
Qed.

Lemma rollup_margin_from_sums_witness :
  ∃ v, head (select_vendor_summary_by_vendor Sample.summary) = Some v
       ∧ let rows := rows_of (VendorRollup.VendorNumber v) Sample.summary in
         let sales := sum0 (BrandSalesSummary.TotalSalesDollars <$> rows) in
         let purchases :=
           sum0 (BrandSalesSummary.TotalPurchaseDollars <$> rows) in
         let freight := sum0 (BrandSalesSummary.FreightCost <$> rows) in
         VendorRollup.ProfitMargin v
         = Some (if decide (0 < sales)
                 then Sql.qc 100 * (sales - purchases - freight) / sales
                 else 0).
Proof.
  eexists. split; [vm_compute; reflexivity|].
  apply (proj1 rollup_margin_from_sums Sample.sales Sample.purchases
           Sample.vendor_invoice).
  in_table.
Defined.

(** In binary64 the stored [ProfitMargin] is not 100 times the stored
    [GrossProfit] over the stored sales dollars: for a vendor with two
    brand rows, sales 0.3 and 0.7, purchases 0.1 and 0.4 and no freight,
    the script stores the margin 50.0, and the ratio is
    49.999999999999986. *)
Lemma margin_is_not_gross_profit_ratio :
  Real64.ProfitMargin Real64.Sample.rows = Real64.of_Z 50
  ∧ Real64.margin_of_gross_profit Real64.Sample.rows
    = S754_finite false 7036874417766398 (-47)
  ∧ Real64.ProfitMargin Real64.Sample.rows
    ≠ Real64.margin_of_gross_profit Real64.Sample.rows.
Proof.
  split; [|split].
  - vm_compute. reflexivity.
  - vm_compute. reflexivity.
  - vm_compute. discriminate.
Qed.

(** * [MAX] over a TEXT column *)

Lemma compare_Eq (a b : string) : String.compare a b = Eq ↔ a = b.
Proof. exact (String_as_OT.cmp_eq a b). Qed.

Lemma compare_Lt (a b : string) :
  String.compare a b = Lt ↔ String_as_OT.lt a b.
Proof. exact (String_as_OT.cmp_lt a b). Qed.

Lemma leb_refl (a : string) : String.leb a a = true.
Proof. unfold String.leb. by rewrite (proj2 (compare_Eq a a) eq_refl). Qed.

Lemma leb_trans (a b c : string) :
  String.leb a b = true → String.leb b c = true → String.leb a c = true.
Proof.
  unfold String.leb.
  destruct (String.compare a b) eqn:Hab; [|
    destruct (String.compare b c) eqn:Hbc|]; try done.
  - apply compare_Eq in Hab as ->. done.
  - apply compare_Eq in Hbc as ->. by rewrite Hab.
  - intros _ _. apply compare_Lt in Hab, Hbc.
    by rewrite (proj2 (compare_Lt a c)
                  (String_as_OT.lt_trans _ _ _ Hab Hbc)).
Qed.

Lemma text_max_cases a b :
  (Sql.text_max a b = a ∨ Sql.text_max a b = b)
  ∧ String.leb a (Sql.text_max a b) = true
  ∧ String.leb b (Sql.text_max a b) = true.
Proof.
  unfold Sql.text_max. destruct (String.leb a b) eqn:Hab.
  - repeat split; [by right|done|apply leb_refl].
  - repeat split; [by left|apply leb_refl|].
    by destruct (String.leb_total a b) as [Hle|Hle]; [congruence|].
Qed.

Lemma foldl_text_max vs : ∀ v,
  foldl Sql.text_max v vs ∈ v :: vs
  ∧ ∀ x, x ∈ v :: vs → String.leb x (foldl Sql.text_max v vs) = true.
Proof.
  induction vs as [|a vs IH]; intros v; simpl.
  - split; [left|]. intros x ->%list_elem_of_singleton. apply leb_refl.
  - destruct (IH (Sql.text_max v a)) as [Hin Hmax].
    destruct (text_max_cases v a) as (Hcases & Hv & Ha).
    assert (String.leb (Sql.text_max v a)
              (foldl Sql.text_max (Sql.text_max v a) vs) = true) as Hm
      by (apply Hmax; left).
    split.
    + apply elem_of_cons in Hin as [->|Hin].
      * destruct Hcases as [->| ->]; [left|right; left].
      * by do 2 right.
    + intros x [->|[->|Hx]%elem_of_cons]%elem_of_cons.
      * by apply (leb_trans _ _ _ Hv).
      * by apply (leb_trans _ _ _ Ha).
      * apply Hmax. by right.
Qed.

Lemma max_text_is_max (l : list (option string)) :
  l ≠ [] →
  Sql.max_text l ∈ l ∧ ∀ n, n ∈ l → Sql.text_le n (Sql.max_text l) = true.
Proof.
  intros Hne. unfold Sql.max_text, Sql.non_null.
  destruct (omap id l) as [|v vs] eqn:Hnn.
  - assert (∀ n, n ∈ l → n = None) as Hnone.
    { intros [x|] Hn; [|done].
      assert (x ∈ omap id l) as Hx
        by (apply list_elem_of_omap; by exists (Some x)).
      rewrite Hnn in Hx. by apply elem_of_nil in Hx. }
    split.
    + destruct l as [|n l]; [done|].
      rewrite (Hnone n) by left. left.
    + intros n Hn. by rewrite (Hnone n Hn).
  - destruct (foldl_text_max vs v) as [Hin Hmax].
    assert (∀ x, x ∈ v :: vs ↔ Some x ∈ l) as Hmem.
    { intros x. rewrite <- Hnn, list_elem_of_omap. split.
      - by intros ([y|] & Hy & [= ->]).
      - intros Hx. by exists (Some x). }
    split.
    + by apply Hmem.
    + intros [x|] Hn; [|done]. simpl. by apply Hmax, Hmem.
Qed.

(** C10.  In every row of [vendor_summary_by_vendor], [VendorName] is the
    greatest, in SQL's order, of the [VendorName]s on that vendor's rows of
    [vendor_sales_summary]: it is one of them, and none of them is
    greater. *)
Theorem rollup_vendor_name_is_max vss v :
  v ∈ select_vendor_summary_by_vendor vss →
  let names :=
    BrandSalesSummary.VendorName <$> rows_of (VendorRollup.VendorNumber v) vss
  in
  VendorRollup.VendorName v ∈ names
  ∧ ∀ n, n ∈ names → Sql.text_le n (VendorRollup.VendorName v) = true.
Proof.
  intros (Hne & -> & _)%rollup_row_origin. simpl.
  apply max_text_is_max. intros Hnil%fmap_nil_inv. done.
Qed.

Lemma rollup_vendor_name_is_max_witness :
  let vss := select_vendor_sales_summary Sample.sales
               Sample.purchases_two_names Sample.vendor_invoice in
  ∃ v, head (select_vendor_summary_by_vendor vss) = Some v
       ∧ VendorRollup.VendorName v
         ∈ BrandSalesSummary.VendorName
           <$> rows_of (VendorRollup.VendorNumber v) vss.
Proof.
  eexists. split; [vm_compute; reflexivity|].
  apply rollup_vendor_name_is_max. in_table.
Defined.

(** Of the two spellings "ACME" and "ACME INC" the rollup keeps the
    second. *)
Example rollup_keeps_greatest_spelling :
  VendorRollup.VendorName
  <$> select_vendor_summary_by_vendor
        (select_vendor_sales_summary Sample.sales Sample.purchases_two_names
           Sample.vendor_invoice)
  = [Some "ACME INC"%string].
Proof. vm_compute. reflexivity. Qed.

(** * Pricing opportunities *)

Lemma brand_pricing_non_null s p inv b :
  b ∈ select_brand_pricing (select_vendor_sales_summary s p inv) →
  is_Some (BrandPricing.TotalSalesQuantity b)
  ∧ is_Some (BrandPricing.TotalSalesDollars b)
  ∧ is_Some (BrandPricing.TotalPurchaseDollars b)
  ∧ is_Some (BrandPricing.FreightCost b).
Proof.
  unfold select_brand_pricing. rewrite list_elem_of_fmap.
  intros (g & -> & Hg). simpl.
  pose proof (group_by_nonempty _ _ _ Hg) as Hne.
  apply elem_of_group_by in Hg as [_ Hrows].
  assert (∀ r, r ∈ g.2 → r ∈ select_vendor_sales_summary s p inv) as Hsub.
  { intros r. rewrite Hrows, list_elem_of_filter. tauto. }
  assert (∀ c : BrandSalesSummary.row → num,
            (∀ r, r ∈ select_vendor_sales_summary s p inv → is_Some (c r)) →
            is_Some (Sql.sum (c <$> g.2))) as Hsum.
  { intros c Hc. apply sum_is_Some.
    - intros Hnil%fmap_nil_inv. done.
    - apply Forall_fmap, Forall_forall. intros r Hr. by apply Hc, Hsub. }
  repeat split; apply Hsum; intros r Hr;
    apply summary_row_non_null in Hr; tauto.
Qed.

Lemma Qclt_minus_pos (x y : Qc) : x < y ↔ 0 < y - x.
Proof. apply Qclt_minus_iff. Qed.

Lemma Qcmax_0_nonneg (x : Qc) : 0 ≤ Qcmax 0 x.
Proof.
  unfold Qcmax. destruct (decide (0 < x)); [by apply Qclt_le_weak|done].
Qed.

(** The [CASE] expressions of [need] and [calc] on a row without [NULL]s. *)
Lemma opportunity_row_formulas (tm Q S P F : Qc) (b : BrandPricing.row) :
  tm < 1 →
  BrandPricing.TotalSalesQuantity b = Some Q →
  BrandPricing.TotalSalesDollars b = Some S →
  BrandPricing.TotalPurchaseDollars b = Some P →
  BrandPricing.FreightCost b = Some F →
  let o := opportunity_row (Some tm)
             (cte_calc (cte_need (Some tm) (cte_b b))) in
  let required := if decide (P + F ≤ 0) then 0 else (P + F) / (1 - tm) in
  let upside := Qcmax 0 (required - S) in
  PricingOpportunity.RequiredSalesDollars o = Some required
  ∧ PricingOpportunity.UpsideDollars o = Some upside
  ∧ PricingOpportunity.NeededPriceDeltaPerUnit o
    = if decide (0 < Q) then Some (upside / Q) else None.
Proof.
  intros Htm HQ HS HP HF. simpl. rewrite HQ, HS, HP, HF. simpl.
  change (Sql.qc 0) with (Q2Qc 0). change (Sql.qc 1) with (Q2Qc 1).
  assert (1 - tm ≠ 0) as Hden.
  { apply Qclt_neq_0. by apply (proj1 (Qclt_minus_pos _ _)). }
  assert (∀ required : Qc,
            (if bool_decide (S < required)
             then Some (required - S) else Some 0)
            = Some (Qcmax 0 (required - S))) as Hup.
  { intros r. unfold Qcmax. case_bool_decide as Hr.
    - by rewrite decide_True by by apply (proj1 (Qclt_minus_pos _ _)).
    - by rewrite decide_False by by rewrite <- Qclt_minus_pos. }
  assert (∀ required : Qc,
            (if bool_decide (0 < Q)
             then (if bool_decide (S < required)
                   then Sql.div (Some (required - S)) (Some (Q * 1))
                   else Some 0)
             else None)
            = if decide (0 < Q) then Some (Qcmax 0 (required - S) / Q)
              else None) as Hneed.
  { intros r. case_bool_decide as Hq.
    - rewrite decide_True by done. unfold Qcmax. rewrite Qcmult_1_r.
      case_bool_decide as Hr.
      + rewrite decide_True by by apply (proj1 (Qclt_minus_pos _ _)).
        by rewrite div_Some by by apply Qclt_neq_0.
      + rewrite decide_False by by rewrite <- Qclt_minus_pos.
        unfold Qcdiv. by rewrite Qcmult_0_l.
    - by rewrite decide_False. }
  rewrite !lit_0. destruct (decide (P + F ≤ 0)) as [Hcost|Hcost].
  - rewrite (bool_decide_eq_true_2 _ Hcost). simpl. by rewrite Hup, Hneed.
  - rewrite (bool_decide_eq_false_2 _ Hcost).
    rewrite (decide_False (P := _ = 0)) by done.
    rewrite Qcmult_1_r. simpl. by rewrite Hup, Hneed.
Qed.

(** C4.  For a target margin in (0,1), [brand_pricing_opportunities] has
    one row for each row of [brand_pricing], at the same position and with
    the same vendor number, vendor name and brand.  With [Q], [S], [P] and
    [F] the sales quantity, sales dollars, purchase dollars and freight
    cost of the [brand_pricing] row (none is [NULL]), the row's
    [RequiredSalesDollars] is 0 when the cost basis [P + F] is not positive
    and (P + F) / (1 - target) otherwise; [UpsideDollars] is the larger of
    0 and [RequiredSalesDollars - S], so never negative; and
    [NeededPriceDeltaPerUnit] is [UpsideDollars / Q] when [Q] is positive
    and [NULL] otherwise. *)
Theorem pricing_opportunity_formulas s p inv (tm : Qc) :
  0 < tm → tm < 1 →
  let bp := select_brand_pricing (select_vendor_sales_summary s p inv) in
  let bpo := select_brand_pricing_opportunities (Some tm) bp in
  length bpo = length bp
  ∧ ∀ (i : nat) (b : BrandPricing.row), bp !! i = Some b →
      ∃ (o : PricingOpportunity.row) (Q S P F : Qc),
        bpo !! i = Some o
        ∧ BrandPricing.TotalSalesQuantity b = Some Q
        ∧ BrandPricing.TotalSalesDollars b = Some S
        ∧ BrandPricing.TotalPurchaseDollars b = Some P
        ∧ BrandPricing.FreightCost b = Some F
        ∧ PricingOpportunity.VendorNumber o = BrandPricing.VendorNumber b
        ∧ PricingOpportunity.VendorName o = BrandPricing.VendorName b
        ∧ PricingOpportunity.Brand o = BrandPricing.Brand b
        ∧ PricingOpportunity.TargetMargin o = Some tm
        ∧ let required :=
            if decide (P + F ≤ 0) then 0 else (P + F) / (1 - tm) in
          let upside := Qcmax 0 (required - S) in
          PricingOpportunity.RequiredSalesDollars o = Some required
          ∧ PricingOpportunity.UpsideDollars o = Some upside
          ∧ 0 ≤ upside
          ∧ PricingOpportunity.NeededPriceDeltaPerUnit o
            = if decide (0 < Q) then Some (upside / Q) else None.
Proof.
  intros _ Htm bp bpo. split.
  { unfold bpo, select_brand_pricing_opportunities. apply length_fmap. }
  intros i b Hi.
  assert (Hb : b ∈ bp) by by eapply list_elem_of_lookup_2.
  destruct (brand_pricing_non_null s p inv b Hb)
    as ([Q HQ] & [S HS] & [P HP] & [F HF]).
  exists (opportunity_row (Some tm) (cte_calc (cte_need (Some tm) (cte_b b)))),
    Q, S, P, F.
  destruct (opportunity_row_formulas tm Q S P F b Htm HQ HS HP HF)
    as (Hreq & Hup & Hneed).
  split.
  { unfold bpo, select_brand_pricing_opportunities.
    by rewrite list_lookup_fmap, Hi. }
  repeat split; try done. apply Qcmax_0_nonneg.
Qed.

Lemma pricing_opportunity_formulas_witness :
  ∃ b, select_brand_pricing Sample.summary !! 0%nat = Some b
       ∧ ∃ (o : PricingOpportunity.row) (Q S P F : Qc),
           select_brand_pricing_opportunities (Some Sample.target)
             (select_brand_pricing Sample.summary) !! 0%nat = Some o
           ∧ BrandPricing.TotalSalesQuantity b = Some Q
           ∧ BrandPricing.TotalSalesDollars b = Some S
           ∧ BrandPricing.TotalPurchaseDollars b = Some P
           ∧ BrandPricing.FreightCost b = Some F
           ∧ PricingOpportunity.VendorNumber o = BrandPricing.VendorNumber b
           ∧ PricingOpportunity.VendorName o = BrandPricing.VendorName b
           ∧ PricingOpportunity.Brand o = BrandPricing.Brand b
           ∧ PricingOpportunity.TargetMargin o = Some Sample.target
           ∧ let required :=
               if decide (P + F ≤ 0) then 0
               else (P + F) / (1 - Sample.target) in
             let upside := Qcmax 0 (required - S) in
             PricingOpportunity.RequiredSalesDollars o = Some required
             ∧ PricingOpportunity.UpsideDollars o = Some upside
             ∧ 0 ≤ upside
             ∧ PricingOpportunity.NeededPriceDeltaPerUnit o
               = if decide (0 < Q) then Some (upside / Q) else None.
Proof.
  eexists. split; [vm_compute; reflexivity|].
  apply (proj2 (pricing_opportunity_formulas Sample.sales Sample.purchases
                  Sample.vendor_invoice Sample.target eq_refl eq_refl)
           0%nat).
  vm_compute. reflexivity.
Defined.

(** The spec's example: purchase dollars 600, no freight, target margin
    0.4 and sales dollars 800 require 1000 and leave an upside of 200. *)
Example upside_of_the_spec_example :
  let b := {| BrandPricing.VendorNumber := Some 1%Z;
              BrandPricing.VendorName := Some "ACME"%string;
              BrandPricing.Brand := Some 1%Z;
              BrandPricing.TotalSalesQuantity := Sql.lit 8;
              BrandPricing.TotalSalesDollars := Sql.lit 800;
              BrandPricing.TotalPurchaseDollars := Sql.lit 600;
              BrandPricing.FreightCost := Sql.lit 0 |} in
  (λ o, (shown (PricingOpportunity.RequiredSalesDollars o),
         shown (PricingOpportunity.UpsideDollars o),
         shown (PricingOpportunity.NeededPriceDeltaPerUnit o)))
  <$> select_brand_pricing_opportunities (Some (Q2Qc (4 # 10))) [b]
  = [(Some 1000%Q, Some 200%Q, Some 25%Q)].
Proof. vm_compute. reflexivity. Qed.

(** * Zero denominators *)

Lemma gt_value_0 (x : num) : value x = 0 → Sql.gt x (Sql.lit 0) = false.
Proof.
  destruct x as [q|]; [|done]. simpl. intros ->.
  apply bool_decide_eq_false_2. intros H. by apply Qclt_not_eq in H.
Qed.

Lemma div_value_0 (a b : num) : value b = 0 → Sql.div a b = None.
Proof.
  destruct a as [x|], b as [y|]; try done. simpl. intros ->.
  by rewrite decide_True.
Qed.

Lemma mul_1_value (x : num) : value (Sql.mul x (Sql.lit 1)) = value x.
Proof. destruct x; [|done]. simpl. apply Qcmult_1_r. Qed.

(** C7.  A ratio of the pipeline whose denominator is zero (or [NULL]) is 0
    or [NULL]; the ratios are total functions into nullable numbers, so
    nothing is raised and no other value can appear.  [FreightCost] and
    [ProfitMargin] (brand and vendor level) give 0, [AvgSalesPrice],
    [AvgPurchasePrice] and [NeededPriceDeltaPerUnit] give [NULL],
    [RequiredSalesDollars] gives 0 or [NULL]; in particular a brand with
    zero sales dollars has [AvgSalesPrice] [NULL] and [ProfitMargin] 0. *)
Theorem zero_denominator_gives_zero_or_null :
  (∀ bp t v,
     value (col BpVendorTot.VendorBrandPurchDollars t) = 0 →
     freight_case bp t v = Some 0)
  ∧ (∀ j,
       value (Joined.TotalSalesDollars j) = 0 →
       BrandSalesSummary.ProfitMargin (summary_row j) = Some 0)
  ∧ (∀ vss v,
       v ∈ select_vendor_summary_by_vendor vss →
       value (VendorRollup.TotalSalesDol_in_summary v) = 0 →
       VendorRollup.ProfitMargin v = Some 0)
  ∧ (∀ b,
       value (BrandPricing.TotalSalesQuantity b) = 0 →
       B.AvgSalesPrice (cte_b b) = None
       ∧ B.AvgPurchasePrice (cte_b b) = None)
  ∧ (∀ target x,
       value (Sql.sub (Sql.lit 1) target) = 0 →
       zero_or_null (Need.RequiredSalesDollars (cte_need target x)))
  ∧ (∀ x,
       value (BrandPricing.TotalSalesQuantity (B.base (Need.b x))) = 0 →
       Calc.NeededPriceDeltaPerUnit (cte_calc x) = None)
  ∧ (∀ b,
       value (BrandPricing.TotalSalesDollars b) = 0 →
       B.AvgSalesPrice (cte_b b) = None).
Proof.
  repeat split.
  - intros bp t v Ht. unfold freight_case.
    rewrite (gt_value_0 (Sql.coalesce (col _ t) _)),
      andb_false_r; [done|].
    by rewrite coalesce_value.
  - intros j Hj. simpl. by rewrite gt_value_0.
  - intros vss v (_ & _ & HS & _ & ->)%rollup_row_origin Hv. simpl.
    rewrite <- HS. by rewrite gt_value_0.
  - simpl. destruct (Sql.gt _ _); [|done].
    apply div_value_0. by rewrite mul_1_value.
  - simpl. destruct (Sql.gt _ _); [|done].
    apply div_value_0. by rewrite mul_1_value.
  - intros target x Hden. simpl. destruct (Sql.le _ _).
    + by right.
    + left. by apply div_value_0.
  - intros x Hq. simpl. by rewrite gt_value_0.
  - intros b Hb. simpl. by rewrite gt_value_0.
Qed.

Lemma zero_denominator_gives_zero_or_null_witness :
  freight_case None None None = Some 0
  ∧ BrandSalesSummary.ProfitMargin (summary_row Sample.joined_no_sales)
    = Some 0
  ∧ B.AvgSalesPrice (cte_b Sample.pricing_no_sales) = None
  ∧ zero_or_null
      (Need.RequiredSalesDollars
         (cte_need (Sql.lit 1) (cte_b Sample.pricing_no_sales)))
  ∧ Calc.NeededPriceDeltaPerUnit
      (cte_calc (cte_need (Sql.lit 1) (cte_b Sample.pricing_no_sales)))
    = None.
Proof.
  destruct zero_denominator_gives_zero_or_null
    as (Hfreight & Hmargin & _ & Havg & Hreq & Hneed & _).
  split; [apply Hfreight; reflexivity|].
  split; [apply Hmargin; reflexivity|].
  split; [apply Havg; reflexivity|].
  split; [apply Hreq; apply Qc_is_canon; reflexivity|].
  apply Hneed; reflexivity.
Defined.

(** * Running the script *)

Lemma bind_returns {A B} (m : M A) (f : A → M B) db a db' :
  m db = (inr a, db') → (m ≫= f) db = f a db'.
Proof. intros Hm. unfold mbind, M_bind. by rewrite Hm. Qed.

Lemma bind_raises {A B} (m : M A) (f : A → M B) db e db' :
  m db = (inl e, db') → (m ≫= f) db = (inl e, db').
Proof. intros Hm. unfold mbind, M_bind. by rewrite Hm. Qed.

Lemma elem_of_present {T} (n name : string) (tbl : option T) :
  n ∈ Db.present name tbl ↔ n = name ∧ is_Some tbl.
Proof.
  destruct tbl as [t|]; simpl.
  - rewrite list_elem_of_singleton. split; [|tauto]. intros ->. eauto.
  - rewrite elem_of_nil. split; [done|]. by intros [_ [? ?]].
Qed.

Lemma base_table_names db :
  ("purchases"%string ∈ Db.table_names db ↔ is_Some (Db.purchases db))
  ∧ ("vendor_invoice"%string ∈ Db.table_names db
     ↔ is_Some (Db.vendor_invoice db))
  ∧ ("sales"%string ∈ Db.table_names db ↔ is_Some (Db.sales db)).
Proof.
  unfold Db.table_names. rewrite !elem_of_app, !elem_of_present.
  destruct (Db.analyzed db);
    rewrite ?list_elem_of_singleton, ?elem_of_nil;
    repeat split; intros; destruct_or?; destruct_and?; try done; tauto.
Qed.

Lemma missing_step {T} (name : string) (tbl : option T) (have : gset string)
    (rest : list string) :
  (name ∈ have ↔ is_Some tbl) →
  (if decide (name ∉ have) then name :: rest else rest)
  = absent name tbl ++ rest.
Proof.
  intros Hhave. destruct tbl as [t|]; simpl.
  - rewrite decide_False; [done|]. intros Hn. apply Hn, Hhave. by eexists.
  - rewrite decide_True; [done|]. intros Hin%Hhave. by destruct Hin.
Qed.

(** The list comprehension of [require_tables]. *)
Lemma require_tables_missing db :
  filter (λ n, n ∉ (list_to_set (Db.table_names db) : gset string))
         base_tables
  = missing_base_tables db.
Proof.
  destruct (base_table_names db) as (Hp & Hv & Hs).
  unfold base_tables, missing_base_tables.
  rewrite !filter_cons, filter_nil.
  rewrite (missing_step "sales" (Db.sales db))
    by by rewrite elem_of_list_to_set.
  rewrite (missing_step "vendor_invoice" (Db.vendor_invoice db))
    by by rewrite elem_of_list_to_set.
  rewrite (missing_step "purchases" (Db.purchases db))
    by by rewrite elem_of_list_to_set.
  by rewrite app_nil_r.
Qed.

Lemma require_tables_raises db :
  missing_base_tables db ≠ [] →
  require_tables base_tables db
  = (inl (RuntimeError (missing_base_tables db)), db).
Proof.
  intros Hne. unfold require_tables. simpl.
  rewrite require_tables_missing. by destruct (missing_base_tables db).
Qed.

Lemma require_tables_returns db :
  missing_base_tables db = [] → require_tables base_tables db = (inr (), db).
Proof.
  intros Hnil. unfold require_tables. simpl.
  by rewrite require_tables_missing, Hnil.
Qed.

Lemma main_raises target db :
  missing_base_tables db ≠ [] →
  main target db = (inl (RuntimeError (missing_base_tables db)), db).
Proof.
  intros Hne. unfold main. apply bind_raises.
  by apply require_tables_raises.
Qed.

Lemma create_index_returns idx tbl db :
  tbl ∈ Db.table_names db →
  create_index_if_not_exists idx tbl db
  = (inr (), Db.with_indexes ({[ idx ]} ∪ Db.indexes db) db).
Proof. intros Hin. unfold create_index_if_not_exists. by rewrite decide_True. Qed.


Lemma missing_base_tables_spec db n :
  n ∈ missing_base_tables db ↔ n ∈ base_tables ∧ n ∉ Db.table_names db.
Proof.
  rewrite <- require_tables_missing, list_elem_of_filter.
  rewrite not_elem_of_list_to_set. tauto.
Qed.

Lemma missing_base_tables_nil db :
  missing_base_tables db = [] ↔
  is_Some (Db.purchases db) ∧ is_Some (Db.vendor_invoice db)
  ∧ is_Some (Db.sales db).
Proof.
  unfold missing_base_tables.
  destruct (Db.purchases db), (Db.vendor_invoice db), (Db.sales db); simpl;
    split; try done; try (intros _; repeat split; by eexists);
    intros (Hp & Hv & Hs); by (destruct Hp || destruct Hv || destruct Hs).
Qed.

(** C8.  When one of [purchases], [vendor_invoice], [sales] is absent,
    [main] ends in the single [RuntimeError] of [require_tables], whose
    list holds exactly the absent ones among the three, and the database is
    as it was found: no index and no derived table has been touched.  When
    all three are present, [require_tables] returns without raising. *)
Theorem missing_base_tables_reported_first target db :
  (Db.purchases db = None ∨ Db.vendor_invoice db = None ∨ Db.sales db = None →
   main target db = (inl (RuntimeError (missing_base_tables db)), db)
   ∧ ∀ n, n ∈ missing_base_tables db
          ↔ n ∈ base_tables ∧ n ∉ Db.table_names db)
  ∧ (is_Some (Db.purchases db) → is_Some (Db.vendor_invoice db) →
     is_Some (Db.sales db) →
     require_tables base_tables db = (inr (), db)).
Proof.
  split.
  - intros Hnone. split; [|apply missing_base_tables_spec].
    apply main_raises. rewrite missing_base_tables_nil.
    intros ([? Hp] & [? Hv] & [? Hs]). rewrite Hp, Hv, Hs in Hnone.
    by destruct Hnone as [|[|]].
  - intros Hp Hv Hs. by apply require_tables_returns, missing_base_tables_nil.
Qed.

Lemma missing_base_tables_reported_first_witness :
  main Sample.target Sample.db_invoices_only
  = (inl (RuntimeError ["purchases"; "sales"]%string),
     Sample.db_invoices_only)
  ∧ require_tables base_tables Sample.db = (inr (), Sample.db).
Proof.
  split.
  - apply (proj1 (missing_base_tables_reported_first Sample.target
                    Sample.db_invoices_only)).
    left. reflexivity.
  - apply (proj2 (missing_base_tables_reported_first Sample.target
                    Sample.db)); simpl; by eexists.
Defined.



(** * Further properties of the pipeline *)

(** ** Grouping rows whose keys are already distinct *)

Lemma remove_dups_NoDup `{EqDecision K} (l : list K) :
  NoDup l → remove_dups l = l.
Proof.
  induction 1 as [|k l Hk Hnd IH]; [done|].
  simpl. destruct (decide_rel _ k l) as [Hin|_]; [done|]. by rewrite IH.
Qed.

Lemma filter_key_singleton {A} `{EqDecision K} (key : A → K) (l : list A) a :
  NoDup (key <$> l) → a ∈ l → filter (λ x, key x = key a) l = [a].
Proof.
  induction l as [|b l IH]; intros Hnd Ha; [by apply elem_of_nil in Ha|].
  rewrite fmap_cons in Hnd. apply NoDup_cons in Hnd as [Hb Hnd].
  rewrite filter_cons. apply elem_of_cons in Ha as [->|Ha].
  - rewrite decide_True by done. f_equal. apply filter_False.
    intros x Hx Hkey. apply Hb. rewrite <- Hkey.
    apply list_elem_of_fmap. by exists x.
  - rewrite decide_False; [by apply IH|].
    intros Hkey. apply Hb. rewrite Hkey. apply list_elem_of_fmap. by exists a.
Qed.

Lemma group_by_NoDup {A} `{EqDecision K} (key : A → K) (l : list A) :
  NoDup (key <$> l) → group_by key l = (λ a, (key a, [a])) <$> l.
Proof.
  intros Hnd. unfold group_by.
  rewrite (remove_dups_NoDup _ Hnd), <- list_fmap_compose.
  apply list_fmap_ext. intros i a Ha%list_elem_of_lookup_2. simpl.
  by rewrite (filter_key_singleton key l a Hnd Ha).
Qed.

Lemma sum_singleton (x : num) : Sql.sum [x] = x.
Proof. rewrite sum_cons. by destruct x. Qed.

(** ** [brand_pricing] repeats [vendor_sales_summary] *)

Lemma select_brand_pricing_NoDup vss :
  NoDup (summary_key <$> vss) →
  select_brand_pricing vss = pricing_of_summary <$> vss.
Proof.
  intros Hnd. unfold select_brand_pricing.
  change (λ r, (BrandSalesSummary.VendorNumber r,
                BrandSalesSummary.VendorName r, BrandSalesSummary.Brand r))
    with summary_key.
  rewrite (group_by_NoDup summary_key vss Hnd), <- list_fmap_compose.
  apply list_fmap_ext. intros _ r _. unfold compose, pricing_of_summary.
  simpl. by rewrite !sum_singleton.
Qed.

Lemma summary_keys_NoDup s p inv :
  NoDup (summary_key <$> select_vendor_sales_summary s p inv).
Proof. rewrite summary_keys. apply NoDup_remove_dups. Qed.

(** X1.  The grouping of [build_brand_pricing] never merges rows:
    [brand_pricing] has one row for each row of [vendor_sales_summary], in
    the same order, with that row's key, sales quantity and dollars,
    purchase dollars and freight cost unchanged. *)
Theorem brand_pricing_repeats_summary s p inv :
  select_brand_pricing (select_vendor_sales_summary s p inv)
  = pricing_of_summary <$> select_vendor_sales_summary s p inv.
Proof. apply select_brand_pricing_NoDup, summary_keys_NoDup. Qed.

(** ** [final_brand] *)

Lemma sql_eq_None `{EqDecision T} (a : option T) : Sql.eq a None = false.
Proof. by destruct a. Qed.

Lemma elem_of_left_join {A B} (on : A → B → bool) (l : list A) (r : list B)
    (a : A) (o : option B) :
  (a, o) ∈ left_join on l r ↔
  a ∈ l ∧ match o with
          | None => filter (λ b, on a b = true) r = []
          | Some b => b ∈ r ∧ on a b = true
          end.
Proof.
  unfold left_join. rewrite list_elem_of_bind. split.
  - intros (a' & Hin & Ha').
    destruct (filter (λ b, on a' b = true) r) as [|b ms] eqn:Hf.
    + apply list_elem_of_singleton in Hin as [= -> ->]. by rewrite Hf.
    + apply list_elem_of_fmap in Hin as (b' & [= -> ->] & Hb').
      split; [done|]. rewrite <- Hf in Hb'.
      apply list_elem_of_filter in Hb'. tauto.
  - intros [Ha Ho]. exists a. split; [|done]. destruct o as [b|].
    + destruct Ho as [Hb Hon].
      assert (b ∈ filter (λ b, on a b = true) r) as Hin
        by by apply list_elem_of_filter.
      destruct (filter (λ b, on a b = true) r) as [|b' ms];
        [by apply elem_of_nil in Hin|].
      apply list_elem_of_fmap. by exists b.
    + rewrite Ho. left.
Qed.

Lemma built_opportunities_rows target s p inv :
  built_opportunities target s p inv
  = (λ r, opportunity_of (Some target) (pricing_of_summary r))
    <$> select_vendor_sales_summary s p inv.
Proof.
  unfold built_opportunities.
  rewrite select_brand_pricing_NoDup by apply summary_keys_NoDup.
  unfold select_brand_pricing_opportunities.
  by rewrite <- list_fmap_compose.
Qed.

(** X2.  In [final_brand] as a run builds it, a row carries the run's
    target margin exactly when its [VendorNumber] and [Brand] are both not
    [NULL]; a row with a [NULL] key finds no pricing opportunity and has
    all four projection columns [NULL]. *)
Theorem final_brand_target_margin target s p inv f :
  f ∈ built_final_brand target s p inv →
  (is_Some (FinalBrand.VendorNumber f) → is_Some (FinalBrand.Brand f) →
   FinalBrand.TargetMargin f = Some target)
  ∧ (FinalBrand.VendorNumber f = None ∨ FinalBrand.Brand f = None →
     FinalBrand.TargetMargin f = None
     ∧ FinalBrand.RequiredSalesDollars f = None
     ∧ FinalBrand.UpsideDollars f = None
     ∧ FinalBrand.NeededPriceDeltaPerUnit f = None).
Proof.
  unfold built_final_brand, select_final_brand.
  rewrite list_elem_of_fmap. intros ([r o] & -> & Hj).
  apply elem_of_left_join in Hj as [Hr Ho]. simpl.
  rewrite built_opportunities_rows in Ho. destruct o as [b|]; simpl.
  - destruct Ho as [Hb Hon].
    apply list_elem_of_fmap in Hb as (r' & -> & _).
    apply andb_true_iff in Hon as [Hv Hb]. simpl in Hv, Hb. split; [done|].
    intros [Hnone|Hnone]; rewrite Hnone in *.
    + by rewrite sql_eq_None in Hv.
    + by rewrite sql_eq_None in Hb.
  - split; [|done]. intros [v Hv] [b Hb]. exfalso.
    assert (opportunity_of (Some target) (pricing_of_summary r)
            ∈ filter
                (λ o, Sql.eq (PricingOpportunity.VendorNumber o)
                             (BrandSalesSummary.VendorNumber r)
                      && Sql.eq (PricingOpportunity.Brand o)
                                (BrandSalesSummary.Brand r) = true)
                ((λ r, opportunity_of (Some target) (pricing_of_summary r))
                 <$> select_vendor_sales_summary s p inv)) as Hin.
    { apply list_elem_of_filter. split.
      - simpl. rewrite Hv, Hb. simpl. by rewrite !bool_decide_eq_true_2.
      - apply list_elem_of_fmap. by exists r. }
    rewrite Ho in Hin. by apply elem_of_nil in Hin.
Qed.

Lemma final_brand_target_margin_witness :
  (∃ f, head (built_final_brand Sample.target Sample.sales Sample.purchases
                Sample.vendor_invoice) = Some f
        ∧ FinalBrand.TargetMargin f = Some Sample.target)
  ∧ (∃ f, head (built_final_brand Sample.target Sample.sales_null_brand
                  Sample.purchases Sample.vendor_invoice) = Some f
          ∧ FinalBrand.TargetMargin f = None).
Proof.
  split; eexists; (split; [vm_compute; reflexivity|]).
  - refine (proj1 (final_brand_target_margin Sample.target Sample.sales
                     Sample.purchases Sample.vendor_invoice _ _) _ _).
    + in_table.
    + by eexists.
    + by eexists.
  - refine (proj1 (proj2 (final_brand_target_margin Sample.target
                            Sample.sales_null_brand Sample.purchases
                            Sample.vendor_invoice _ _) _)).
    + in_table.
    + right. reflexivity.
Defined.

Lemma vendor_brand_NoDup s p inv :
  (∀ p1 p2, p1 ∈ p → p2 ∈ p →
     PurchaseRecord.VendorNumber p1 = PurchaseRecord.VendorNumber p2 →
     PurchaseRecord.VendorName p1 = PurchaseRecord.VendorName p2) →
  NoDup (vendor_brand <$> select_vendor_sales_summary s p inv).
Proof.
  intros Hname.
  assert (vendor_brand <$> select_vendor_sales_summary s p inv
          = (λ k : option Z * option string * option Z, (k.1.1, k.2))
            <$> remove_dups (join_key <$> sales_purchases_join s p)) as ->.
  { by rewrite <- (summary_keys s p inv), <- list_fmap_compose. }
  apply NoDup_fmap_2_strong; [|apply NoDup_remove_dups].
  intros [[v1 n1] b1] [[v2 n2] b2].
  rewrite !elem_of_remove_dups, !list_elem_of_fmap.
  intros (sp1 & Hk1 & Hin1%elem_of_sales_purchases_join)
         (sp2 & Hk2 & Hin2%elem_of_sales_purchases_join) Heq.
  unfold join_key in *. simpl in *. simplify_eq.
  by rewrite (Hname _ _ Hin1 Hin2).
Qed.

Lemma summary_of_final_brand_joined vss bpo :
  summary_of_final_brand <$> select_final_brand vss bpo
  = r ← vss; replicate (1 `max` length (opportunities_of bpo r)) r.
Proof.
  unfold select_final_brand, left_join, opportunities_of.
  induction vss as [|r vss IH]; [done|].
  rewrite !bind_cons, !fmap_app, IH. f_equal.
  destruct (filter _ bpo) as [|o ms]; [by destruct r|].
  change (1 `max` length (o :: ms))%nat with (length (o :: ms)).
  generalize (o :: ms). intros l.
  induction l as [|o' l IHl]; [done|].
  rewrite !fmap_cons. cbn [length replicate]. rewrite IHl. by destruct r.
Qed.

(** X3.  [final_brand] keeps every row of [vendor_sales_summary], in
    order: its first ten columns repeat each summary row once for every
    opportunity with the row's vendor number and brand, and once when
    there is none.  When the purchases give every vendor number a single
    name each row is kept exactly once; with two spellings of a name the
    join on (VendorNumber, Brand) alone pairs every spelling's row with
    every spelling's opportunity, and rows multiply. *)
Theorem final_brand_rows target s p inv :
  (∀ vss bpo,
     summary_of_final_brand <$> select_final_brand vss bpo
     = r ← vss; replicate (1 `max` length (opportunities_of bpo r)) r)
  ∧ ((∀ p1 p2, p1 ∈ p → p2 ∈ p →
        PurchaseRecord.VendorNumber p1 = PurchaseRecord.VendorNumber p2 →
        PurchaseRecord.VendorName p1 = PurchaseRecord.VendorName p2) →
     final_brand_key <$> built_final_brand target s p inv
     = vendor_brand <$> select_vendor_sales_summary s p inv
     ∧ summary_of_final_brand <$> built_final_brand target s p inv
       = select_vendor_sales_summary s p inv)
  ∧ (length (select_vendor_sales_summary Sample.sales
               Sample.purchases_two_names Sample.vendor_invoice) = 3
     ∧ length (built_final_brand target Sample.sales
                 Sample.purchases_two_names Sample.vendor_invoice) = 5)%nat.
Proof.
  split; [|split].
  - apply summary_of_final_brand_joined.
  - intros Hname. unfold built_final_brand, select_final_brand.
    rewrite left_join_lookup, <- !list_fmap_compose.
    + split; [done|].
      rewrite <- (list_fmap_id (select_vendor_sales_summary _ _ _)) at 2.
      apply Forall_fmap_ext_1, Forall_forall. by intros [] _.
    + intros r _.
      apply (filter_unique_key opportunity_key _ _
               (BrandSalesSummary.VendorNumber r, BrandSalesSummary.Brand r)).
      * rewrite built_opportunities_rows, <- list_fmap_compose.
        by apply vendor_brand_NoDup.
      * intros o _ [Hv Hb]%andb_true_iff. unfold opportunity_key.
        by rewrite (sql_eq_true _ _ Hv), (sql_eq_true _ _ Hb).
  - split.
    + vm_compute. reflexivity.
    + unfold built_final_brand, select_final_brand, built_opportunities,
        select_brand_pricing_opportunities.
      rewrite !length_fmap.
      vm_compute. reflexivity.
Qed.

Lemma final_brand_rows_witness :
  final_brand_key
  <$> built_final_brand Sample.target Sample.sales Sample.purchases
        Sample.vendor_invoice
  = vendor_brand <$> Sample.summary
  ∧ summary_of_final_brand
    <$> built_final_brand Sample.target Sample.sales Sample.purchases
          Sample.vendor_invoice
    = Sample.summary.
Proof.
  apply (proj1 (proj2 (final_brand_rows Sample.target Sample.sales
                         Sample.purchases Sample.vendor_invoice))).
  intros p1 p2 Hp1 Hp2 _.
  unfold Sample.purchases in Hp1, Hp2.
  rewrite !elem_of_cons, elem_of_nil in Hp1, Hp2.
  by destruct Hp1 as [->|[->|[]]], Hp2 as [->|[->|[]]].
Defined.

(** ** [final_all] *)

Lemma filter_all {A} (P : A → Prop) `{∀ a, Decision (P a)} (l : list A) :
  (∀ a, a ∈ l → P a) → filter P l = l.
Proof.
  induction l as [|a l IH]; intros Hall; [done|].
  rewrite filter_cons_True by (apply Hall; left).
  f_equal. apply IH. intros a' Ha'. apply Hall. by right.
Qed.

(** X4.  [final_all] is the vendor-level rows followed by the brand-level
    rows, told apart by [Level]: as many rows tagged "vendor" as
    [vendor_summary_by_vendor] has rows, as many tagged "brand" as
    [final_brand] has, and no others.  [BrandCount] is [NULL] on every row,
    and a vendor-level row has [Brand] and the four projection columns
    [NULL]. *)
Theorem final_all_shape vsv fb :
  let fa := select_final_all (select_final_vendor vsv) fb in
  length fa = (length vsv + length fb)%nat
  ∧ length (filter (λ a, FinalAll.Level a = "vendor"%string) fa) = length vsv
  ∧ length (filter (λ a, FinalAll.Level a = "brand"%string) fa) = length fb
  ∧ ∀ a, a ∈ fa →
      FinalAll.BrandCount a = None
      ∧ (FinalAll.Level a = "vendor"%string →
         FinalAll.Brand a = None
         ∧ FinalAll.TargetMargin a = None
         ∧ FinalAll.RequiredSalesDollars a = None
         ∧ FinalAll.UpsideDollars a = None
         ∧ FinalAll.NeededPriceDeltaPerUnit a = None).
Proof.
  cbv zeta. unfold select_final_all, select_final_vendor.
  split; [by rewrite length_app, !length_fmap|].
  split.
  { rewrite filter_app, !filter_fmap.
    rewrite (filter_all _ vsv) by done.
    rewrite (filter_False fb) by done.
    by rewrite length_app, !length_fmap, Nat.add_0_r. }
  split.
  { rewrite filter_app, !filter_fmap.
    rewrite (filter_False vsv) by done.
    rewrite (filter_all _ fb) by done.
    by rewrite length_app, !length_fmap. }
  intros a [Ha|Ha]%elem_of_app.
  - apply list_elem_of_fmap in Ha as (x & -> & Hx).
    by apply list_elem_of_fmap in Hx as (y & -> & _).
  - by apply list_elem_of_fmap in Ha as (x & -> & _).
Qed.

Lemma final_all_shape_witness :
  ∃ a, head (select_final_all
               (select_final_vendor
                  (select_vendor_summary_by_vendor Sample.summary))
               (built_final_brand Sample.target Sample.sales Sample.purchases
                  Sample.vendor_invoice)) = Some a
       ∧ FinalAll.BrandCount a = None.
Proof.
  eexists. split; [vm_compute; reflexivity|].
  refine (proj1 (proj2 (proj2 (proj2
            (final_all_shape
               (select_vendor_summary_by_vendor Sample.summary)
               (built_final_brand Sample.target Sample.sales
                  Sample.purchases Sample.vendor_invoice)))) _ _)).
  in_table.
Defined.

(** ** The vendor rollup *)

(** X5.  [vendor_summary_by_vendor] has exactly one row for each vendor
    number that occurs in [vendor_sales_summary] (the [NULL] vendor number
    counting as one), and no others. *)
Theorem rollup_one_row_per_vendor vss :
  NoDup (VendorRollup.VendorNumber <$> select_vendor_summary_by_vendor vss)
  ∧ ∀ v, v ∈ VendorRollup.VendorNumber <$> select_vendor_summary_by_vendor vss
         ↔ v ∈ BrandSalesSummary.VendorNumber <$> vss.
Proof.
  unfold select_vendor_summary_by_vendor.
  erewrite grouped_keys by done.
  split; [apply NoDup_remove_dups|]. intros v. apply elem_of_remove_dups.
Qed.

(** ** [vendor_risk_flags] *)

Lemma qc_plus (a b : Z) : Sql.qc a + Sql.qc b = Sql.qc (a + b).
Proof.
  apply Qc_is_canon. unfold Sql.qc. simpl.
  by rewrite !Qred_correct, inject_Z_plus.
Qed.

Lemma sum0_flags {A} (c : A → num) (rows : list A) :
  sum0 ((λ r, neg_flag (c r)) <$> rows)
  = Sql.qc (Z.of_nat
              (length (filter (λ r, Sql.lt (c r) (Sql.lit 0) = true) rows))).
Proof.
  induction rows as [|r rows IH]; [done|].
  rewrite fmap_cons, sum0_cons, IH, filter_cons. unfold neg_flag.
  destruct (decide (Sql.lt (c r) (Sql.lit 0) = true)) as [Hneg|Hneg].
  - rewrite Hneg. simpl. rewrite qc_plus. f_equal. lia.
  - apply not_true_is_false in Hneg. rewrite Hneg. simpl.
    rewrite qc_plus. f_equal.
Qed.

Lemma count_flags {A} (c : A → num) (rows : list A) :
  rows ≠ [] →
  Sql.sum ((λ r, neg_flag (c r)) <$> rows)
  = Some (Sql.qc (Z.of_nat
                    (length (filter (λ r, Sql.lt (c r) (Sql.lit 0) = true)
                                    rows)))).
Proof.
  intros Hne. rewrite <- sum0_flags. apply sum_Some_sum0.
  - intros Hnil%fmap_nil_inv. done.
  - apply Forall_fmap, Forall_forall. intros r _. simpl. unfold neg_flag.
    destruct (Sql.lt _ _); by eexists.
Qed.

(** X8.  Each flag of [vendor_risk_flags] is the number of the vendor's
    rows of [vendor_sales_summary] whose column is negative; a [NULL] in
    the column is not counted, and a flag is never [NULL].  The five
    counts are taken independently of one another. *)
Theorem risk_flags_count vss v :
  v ∈ select_vendor_risk_flags vss →
  let rows := rows_of (RiskFlags.VendorNumber v) vss in
  let count c := Some (Sql.qc (Z.of_nat (negatives c rows))) in
  rows ≠ []
  ∧ RiskFlags.neg_SalesQty v = count BrandSalesSummary.TotalSalesQuantity
  ∧ RiskFlags.neg_SalesDol v = count BrandSalesSummary.TotalSalesDollars
  ∧ RiskFlags.neg_PurchQty v = count BrandSalesSummary.TotalPurchaseQuantity
  ∧ RiskFlags.neg_PurchDol v = count BrandSalesSummary.TotalPurchaseDollars
  ∧ RiskFlags.neg_Freight v = count BrandSalesSummary.FreightCost.
Proof.
  unfold select_vendor_risk_flags. rewrite list_elem_of_fmap.
  intros (g & -> & Hg). simpl.
  pose proof (group_by_nonempty _ _ _ Hg) as Hne.
  apply elem_of_group_by in Hg as [_ Hrows].
  unfold rows_of, negatives. rewrite <- Hrows.
  repeat split; try done; by apply count_flags.
Qed.

Lemma risk_flags_count_witness :
  ∃ v, head (select_vendor_risk_flags Sample.summary) = Some v
       ∧ RiskFlags.neg_Freight v
         = Some (Sql.qc (Z.of_nat
                           (negatives BrandSalesSummary.FreightCost
                              (rows_of (RiskFlags.VendorNumber v)
                                 Sample.summary)))).
Proof.
  eexists. split; [vm_compute; reflexivity|].
  refine (proj2 (proj2 (proj2 (proj2 (proj2
            (risk_flags_count Sample.summary _ _)))))).
  in_table.
Defined.

Lemma length_filter_mono {A} (P Q : A → Prop) `{∀ a, Decision (P a)}
    `{∀ a, Decision (Q a)} (l : list A) :
  (∀ a, a ∈ l → P a → Q a) →
  (length (filter P l) ≤ length (filter Q l))%nat.
Proof.
  induction l as [|a l IH]; intros Hpq; [done|].
  specialize (IH (λ a' Ha', Hpq a' (list_elem_of_further _ _ _ Ha'))).
  specialize (Hpq a (list_elem_of_here _ _)).
  rewrite !filter_cons.
  destruct (decide (P a)), (decide (Q a)); simpl; try lia. tauto.
Qed.

(** X9.  A row of [vendor_sales_summary] has a negative [FreightCost] only
    if its [TotalPurchaseDollars] is negative; so for every vendor the
    rows counted by [neg_Freight] are no more than those counted by
    [neg_PurchDol]. *)
Theorem negative_freight_needs_negative_purchases s p inv :
  let vss := select_vendor_sales_summary s p inv in
  (∀ r, r ∈ vss →
     Sql.lt (BrandSalesSummary.FreightCost r) (Sql.lit 0) = true →
     Sql.lt (BrandSalesSummary.TotalPurchaseDollars r) (Sql.lit 0) = true)
  ∧ ∀ v, (negatives BrandSalesSummary.FreightCost (rows_of v vss)
          ≤ negatives BrandSalesSummary.TotalPurchaseDollars (rows_of v vss))%nat.
Proof.
  cbv zeta.
  assert (∀ r, r ∈ select_vendor_sales_summary s p inv →
            Sql.lt (BrandSalesSummary.FreightCost r) (Sql.lit 0) = true →
            Sql.lt (BrandSalesSummary.TotalPurchaseDollars r) (Sql.lit 0)
            = true) as Hrow.
  { intros r Hr. destruct (summary_row_freight s p inv r Hr) as [HP HF].
    cbv zeta in HP, HF. rewrite HP, HF. unfold allocated_freight. simpl.
    set (F := value (invoice_freight inv _)).
    set (T := value (vendor_purchase_dollars p _)).
    set (P := value (brand_purchase_dollars p _ _)).
    change (Sql.qc 0) with (Q2Qc 0).
    destruct (decide (0 < F ∧ 0 < T)) as [[HF' HT]|_].
    - intros Hneg%bool_decide_eq_true. apply bool_decide_eq_true_2.
      apply (Qcmult_lt_mono_pos_r _ _ T HT) in Hneg.
      replace (F * P / T * T) with (F * P) in Hneg
        by (field; by apply Qclt_neq_0).
      rewrite Qcmult_0_l in Hneg.
      apply (Qcmult_lt_mono_pos_l _ _ F HF'). by rewrite Qcmult_0_r.
    - intros Hneg%bool_decide_eq_true. by apply Qclt_not_eq in Hneg. }
  split; [done|]. intros v. unfold negatives.
  apply length_filter_mono. intros r [_ Hr]%elem_of_rows_of. by apply Hrow.
Qed.

Lemma negative_freight_needs_negative_purchases_witness :
  ∃ r, head (select_vendor_sales_summary Sample.sales
               Sample.purchases_with_return Sample.vendor_invoice) = Some r
       ∧ shown (BrandSalesSummary.FreightCost r) = Some (-75)%Q
       ∧ Sql.lt (BrandSalesSummary.TotalPurchaseDollars r) (Sql.lit 0) = true.
Proof.
  eexists. split; [vm_compute; reflexivity|].
  split; [vm_compute; reflexivity|].
  refine (proj1 (negative_freight_needs_negative_purchases Sample.sales
                   Sample.purchases_with_return Sample.vendor_invoice)
            _ _ _).
  - in_table.
  - vm_compute. reflexivity.
Defined.

(** ** [spend_by_vendor] *)

Lemma sql_eq_Some `{EqDecision T} (a : option T) (x : T) :
  Sql.eq a (Some x) = true ↔ a = Some x.
Proof.
  split; [apply sql_eq_true|]. intros ->. simpl. by apply bool_decide_eq_true.
Qed.

Lemma rows_matching_Some x vss :
  rows_matching (Some x) vss = rows_of (Some x) vss.
Proof.
  unfold rows_matching, rows_of. apply filter_ext_in. intros r _.
  apply sql_eq_Some.
Qed.

Lemma rows_matching_None vss : rows_matching None vss = [].
Proof.
  unfold rows_matching. apply filter_False. intros r _.
  by rewrite sql_eq_None.
Qed.

Lemma spend_row_origin inv vss sp :
  sp ∈ select_spend_by_vendor inv vss →
  SpendByVendor.VendorNumber sp ∈ VendorInvoiceRecord.VendorNumber <$> inv
  ∧ SpendByVendor.TotalPurchaseDollars sp
    = Sql.sum (VendorInvoiceRecord.Dollars
               <$> filter (λ i, VendorInvoiceRecord.VendorNumber i
                                = SpendByVendor.VendorNumber sp) inv)
  ∧ SpendByVendor.TotalSalesDollars sp
    = Sql.coalesce
        (Sql.sum (BrandSalesSummary.TotalSalesDollars
                  <$> rows_matching (SpendByVendor.VendorNumber sp) vss))
        (Sql.lit 0).
Proof.
  unfold select_spend_by_vendor. rewrite list_elem_of_fmap.
  intros (g & -> & Hg). simpl.
  apply elem_of_group_by in Hg as [Hk Hrows]. by rewrite <- Hrows.
Qed.

(** X10.  [spend_by_vendor] has one row for each vendor number of
    [vendor_invoice].  Its [TotalSalesDollars] is never [NULL]: it is the
    plain sum of [TotalSalesDollars] over the rows of
    [vendor_sales_summary] whose vendor number equals the row's, hence 0
    for a vendor without such rows, and 0 for the [NULL] vendor number
    even when [vendor_sales_summary] has rows with a [NULL] vendor
    number. *)
Theorem spend_by_vendor_sales inv vss :
  let spend := select_spend_by_vendor inv vss in
  NoDup (SpendByVendor.VendorNumber <$> spend)
  ∧ (∀ v, v ∈ SpendByVendor.VendorNumber <$> spend
          ↔ v ∈ VendorInvoiceRecord.VendorNumber <$> inv)
  ∧ ∀ sp, sp ∈ spend →
      SpendByVendor.TotalSalesDollars sp
      = Some (sum0 (BrandSalesSummary.TotalSalesDollars
                    <$> rows_matching (SpendByVendor.VendorNumber sp) vss))
      ∧ (rows_matching (SpendByVendor.VendorNumber sp) vss = [] →
         SpendByVendor.TotalSalesDollars sp = Some 0)
      ∧ (SpendByVendor.VendorNumber sp = None →
         SpendByVendor.TotalSalesDollars sp = Some 0).
Proof.
  cbv zeta. split; [|split].
  - unfold select_spend_by_vendor. erewrite grouped_keys by done.
    apply NoDup_remove_dups.
  - intros v. unfold select_spend_by_vendor. erewrite grouped_keys by done.
    apply elem_of_remove_dups.
  - intros sp (_ & _ & ->)%spend_row_origin.
    rewrite coalesce_value, value_sum. split; [done|]. split.
    + by intros ->.
    + intros ->. by rewrite rows_matching_None.
Qed.

Lemma spend_by_vendor_sales_witness :
  let spend :=
    select_spend_by_vendor Sample.two_vendor_invoices Sample.summary in
  ∃ sp, head spend = Some sp
        ∧ SpendByVendor.VendorNumber sp = Some 2%Z
        ∧ SpendByVendor.TotalSalesDollars sp = Some 0.
Proof.
  eexists. split; [vm_compute; reflexivity|].
  split; [vm_compute; reflexivity|].
  refine (proj1 (proj2 (proj2 (proj2 (spend_by_vendor_sales
            Sample.two_vendor_invoices Sample.summary)) _ _)) _).
  - in_table.
  - vm_compute. reflexivity.
Defined.

(** X11.  For a vendor number that is not [NULL], the [TotalSalesDollars]
    of [spend_by_vendor] is the [TotalSalesDol_in_summary] of the vendor's
    row in [vendor_summary_by_vendor] ([NULL] read as 0): the two tables,
    built by different statements, agree on a vendor's sales. *)
Theorem spend_agrees_with_rollup inv vss sp rv x :
  sp ∈ select_spend_by_vendor inv vss →
  rv ∈ select_vendor_summary_by_vendor vss →
  SpendByVendor.VendorNumber sp = Some x →
  VendorRollup.VendorNumber rv = Some x →
  SpendByVendor.TotalSalesDollars sp
  = Some (value (VendorRollup.TotalSalesDol_in_summary rv)).
Proof.
  intros (_ & _ & ->)%spend_row_origin (_ & _ & -> & _)%rollup_row_origin
         -> ->.
  by rewrite coalesce_value, rows_matching_Some.
Qed.

Lemma spend_agrees_with_rollup_witness :
  ∃ sp rv,
    head (select_spend_by_vendor Sample.vendor_invoice Sample.summary)
    = Some sp
    ∧ head (select_vendor_summary_by_vendor Sample.summary) = Some rv
    ∧ SpendByVendor.TotalSalesDollars sp
      = Some (value (VendorRollup.TotalSalesDol_in_summary rv)).
Proof.
  eexists _, _. split; [vm_compute; reflexivity|].
  split; [vm_compute; reflexivity|].
  apply (spend_agrees_with_rollup Sample.vendor_invoice Sample.summary _ _ 1).
  - in_table.
  - in_table.
  - vm_compute. reflexivity.
  - vm_compute. reflexivity.
Defined.

(** ** The stages one at a time *)

Lemma create_index_raises idx tbl db :
  tbl ∉ Db.table_names db →
  create_index_if_not_exists idx tbl db = (inl (OperationalError tbl), db).
Proof.
  intros Hin. unfold create_index_if_not_exists. by rewrite decide_False.
Qed.

Lemma with_indexes_twice x y db :
  Db.with_indexes x (Db.with_indexes y db) = Db.with_indexes x db.
Proof. done. Qed.

Lemma table_names_with_indexes x db :
  Db.table_names (Db.with_indexes x db) = Db.table_names db.
Proof. done. Qed.

(** X12.  [ensure_indexes] creates its indexes one statement at a time and
    stops at the first whose table is missing.  With the three base tables
    present it returns, and the database differs only in that the four
    indexes have joined the index set (those already there stay).  With
    [sales] missing nothing is created; with [sales] present and
    [purchases] missing, the error leaves [idx_sales_inventory] behind;
    with only [vendor_invoice] missing, the three indexes on [sales] and
    [purchases] are left behind. *)
Theorem ensure_indexes_outcome db :
  (is_Some (Db.sales db) → is_Some (Db.purchases db) →
   is_Some (Db.vendor_invoice db) →
   ensure_indexes db
   = (inr (), Db.with_indexes (Db.indexes db ∪ script_indexes) db))
  ∧ (Db.sales db = None →
     ensure_indexes db = (inl (OperationalError "sales"), db))
  ∧ (is_Some (Db.sales db) → Db.purchases db = None →
     ensure_indexes db
     = (inl (OperationalError "purchases"),
        Db.with_indexes ({[ "idx_sales_inventory"%string ]} ∪ Db.indexes db)
          db))
  ∧ (is_Some (Db.sales db) → is_Some (Db.purchases db) →
     Db.vendor_invoice db = None →
     ensure_indexes db
     = (inl (OperationalError "vendor_invoice"),
        Db.with_indexes
          (Db.indexes db
           ∪ {[ "idx_sales_inventory"; "idx_purchases_inventory";
                "idx_purchases_vendor" ]}%string)
          db)).
Proof.
  destruct (base_table_names db) as (Hp & Hv & Hs).
  unfold ensure_indexes. repeat split.
  - intros Hs' Hp' Hv'.
    erewrite bind_returns; [|apply create_index_returns; by apply Hs].
    erewrite bind_returns;
      [|apply create_index_returns; rewrite table_names_with_indexes;
        by apply Hp].
    erewrite bind_returns;
      [|apply create_index_returns; rewrite table_names_with_indexes;
        by apply Hp].
    rewrite create_index_returns
      by (rewrite !table_names_with_indexes; by apply Hv).
    rewrite !with_indexes_twice. f_equal. f_equal.
    unfold script_indexes. simpl. apply set_eq. intros x.
    rewrite !elem_of_union. tauto.
  - intros Hs'. apply bind_raises. apply create_index_raises.
    rewrite Hs, Hs'. by intros [? ?].
  - intros Hs' Hp'.
    erewrite bind_returns; [|apply create_index_returns; by apply Hs].
    apply bind_raises. apply create_index_raises.
    rewrite table_names_with_indexes, Hp, Hp'. by intros [? ?].
  - intros Hs' Hp' Hv'.
    erewrite bind_returns; [|apply create_index_returns; by apply Hs].
    erewrite bind_returns;
      [|apply create_index_returns; rewrite table_names_with_indexes;
        by apply Hp].
    erewrite bind_returns;
      [|apply create_index_returns; rewrite table_names_with_indexes;
        by apply Hp].
    rewrite create_index_raises.
    2:{ rewrite !table_names_with_indexes, Hv, Hv'. by intros [? ?]. }
    rewrite !with_indexes_twice. f_equal. f_equal.
    simpl. apply set_eq. intros x. rewrite !elem_of_union. tauto.
Qed.

Lemma ensure_indexes_outcome_witness :
  ensure_indexes Sample.db
  = (inr (), Db.with_indexes (Db.indexes Sample.db ∪ script_indexes) Sample.db)
  ∧ ensure_indexes Sample.db_invoices_only
    = (inl (OperationalError "sales"), Sample.db_invoices_only)
  ∧ ensure_indexes Sample.db_no_purchases
    = (inl (OperationalError "purchases"),
       Db.with_indexes
         ({[ "idx_sales_inventory"%string ]}
          ∪ Db.indexes Sample.db_no_purchases)
         Sample.db_no_purchases)
  ∧ (ensure_indexes Sample.db_no_invoice).1
    = inl (OperationalError "vendor_invoice").
Proof.
  split; [|split; [|split]].
  - apply (proj1 (ensure_indexes_outcome Sample.db)); simpl; by eexists.
  - apply (proj1 (proj2 (ensure_indexes_outcome Sample.db_invoices_only))).
    reflexivity.
  - apply (proj1 (proj2 (proj2 (ensure_indexes_outcome
                                  Sample.db_no_purchases)))).
    + simpl. by eexists.
    + reflexivity.
  - rewrite (proj2 (proj2 (proj2 (ensure_indexes_outcome
                                    Sample.db_no_invoice)))).
    + reflexivity.
    + simpl. by eexists.
    + simpl. by eexists.
    + reflexivity.
Defined.

(** X13.  A stage that reads one table drops its own table first and then
    either rebuilds it from the table it reads or, when that table does
    not exist, raises SQLite's "no such table" for it and leaves its own
    table dropped.  Whatever its table held before is gone either way, and
    nothing else in the database changes.  This holds for
    [build_vendor_rollup], [build_brand_pricing] and
    [build_brand_pricing_opps]. *)
Theorem stage_output_fresh_or_dropped target db :
  build_vendor_rollup db
  = (read_outcome "vendor_sales_summary" (Db.vendor_sales_summary db),
     Db.with_vendor_summary_by_vendor
       (select_vendor_summary_by_vendor <$> Db.vendor_sales_summary db) db)
  ∧ build_brand_pricing db
    = (read_outcome "vendor_sales_summary" (Db.vendor_sales_summary db),
       Db.with_brand_pricing
         (select_brand_pricing <$> Db.vendor_sales_summary db) db)
  ∧ build_brand_pricing_opps target db
    = (read_outcome "brand_pricing" (Db.brand_pricing db),
       Db.with_brand_pricing_opportunities
         (select_brand_pricing_opportunities (Some target)
          <$> Db.brand_pricing db) db).
Proof.
  destruct db as [p v s idx vss vsv sbv vrf bp bpo fv fb fa an].
  repeat split.
  - by destruct vss.
  - by destruct vss.
  - by destruct bp.
Qed.

(** X14.  [build_finals] runs its three rebuilds in turn and stops at the
    first table it cannot read.  When [vendor_summary_by_vendor] and
    [vendor_sales_summary] exist but [brand_pricing_opportunities] does
    not, it raises after having rebuilt [final_vendor] and dropped
    [final_brand], and [final_all] still holds what an earlier run left
    there. *)
Theorem build_finals_stops_before_final_all db vsv vss :
  Db.vendor_summary_by_vendor db = Some vsv →
  Db.vendor_sales_summary db = Some vss →
  Db.brand_pricing_opportunities db = None →
  build_finals db
  = (inl (OperationalError "brand_pricing_opportunities"),
     Db.with_final_brand None
       (Db.with_final_vendor (Some (select_final_vendor vsv)) db))
  ∧ Db.final_all (build_finals db).2 = Db.final_all db.
Proof.
  destruct db as [p v s idx vss' vsv' sbv vrf bp bpo fv fb fa an]. simpl.
  intros -> -> ->. done.
Qed.

Lemma build_finals_stops_before_final_all_witness :
  (build_finals Sample.db_stale_final_all).1
  = inl (OperationalError "brand_pricing_opportunities")
  ∧ Db.final_all (build_finals Sample.db_stale_final_all).2 = Some [].
Proof.
  destruct (build_finals_stops_before_final_all Sample.db_stale_final_all
              (select_vendor_summary_by_vendor Sample.summary)
              Sample.summary eq_refl eq_refl eq_refl) as [Hrun Hstale].
  split.
  - by rewrite Hrun.
  - exact Hstale.
Defined.

(** X16.  [export_csvs] only reads: it leaves the database as it is, and
    it returns exactly when all nine derived tables exist. *)
Theorem export_csvs_only_reads db :
  (export_csvs db).2 = db
  ∧ ((export_csvs db).1 = inr () ↔
     is_Some (Db.vendor_sales_summary db)
     ∧ is_Some (Db.vendor_summary_by_vendor db)
     ∧ is_Some (Db.spend_by_vendor db)
     ∧ is_Some (Db.vendor_risk_flags db)
     ∧ is_Some (Db.brand_pricing db)
     ∧ is_Some (Db.brand_pricing_opportunities db)
     ∧ is_Some (Db.final_vendor db)
     ∧ is_Some (Db.final_brand db)
     ∧ is_Some (Db.final_all db)).
Proof.
  destruct db as [p v s idx vss vsv sbv vrf bp bpo fv fb fa an]. simpl.
  destruct vss; [|split; [done|split; [done|by intros ([? ?] & _)]]].
  destruct vsv; [|split; [done|split; [done|by intros (_ & [? ?] & _)]]].
  destruct sbv; [|split; [done|split; [done|by intros (_ & _ & [? ?] & _)]]].
  destruct vrf;
    [|split; [done|split; [done|by intros (_ & _ & _ & [? ?] & _)]]].
  destruct bp;
    [|split; [done|split; [done|by intros (_ & _ & _ & _ & [? ?] & _)]]].
  destruct bpo;
    [|split; [done|split; [done|by intros (_ & _ & _ & _ & _ & [? ?] & _)]]].
  destruct fv;
    [|split;
      [done|split; [done|by intros (_ & _ & _ & _ & _ & _ & [? ?] & _)]]].
  destruct fb;
    [|split;
      [done
      |split; [done|by intros (_ & _ & _ & _ & _ & _ & _ & [? ?] & _)]]].
  destruct fa;
    [|split;
      [done
      |split; [done|by intros (_ & _ & _ & _ & _ & _ & _ & _ & [? ?])]]].
  split; [done|]. split; [|done]. intros _. repeat split; by eexists.
Qed.

(** ** Sales are counted once per matching purchase row *)







(** ** [BrandCount] *)

Lemma length_remove_dups_le `{EqDecision K} (l : list K) :
  (length (remove_dups l) ≤ length l)%nat.
Proof.
  induction l as [|k l IH]; [done|]. simpl.
  destruct (decide_rel _ k l); simpl; lia.
Qed.

Lemma length_non_null {A B} (c : A → option B) (l : list A) :
  length (Sql.non_null (c <$> l)) = length (filter (λ a, is_Some (c a)) l).
Proof.
  unfold Sql.non_null. induction l as [|a l IH]; [done|].
  rewrite fmap_cons, filter_cons.
  change (omap id (c a :: (c <$> l)))
    with (match c a with
          | Some y => y :: omap id (c <$> l)
          | None => omap id (c <$> l)
          end).
  destruct (c a) as [y|] eqn:Hc.
  - rewrite decide_True by by eexists. simpl. by rewrite IH.
  - rewrite decide_False by by intros [? ?]. done.
Qed.

Lemma NoDup_non_null {A} (l : list (option A)) :
  NoDup l → NoDup (Sql.non_null l).
Proof.
  unfold Sql.non_null. induction 1 as [|x l Hx Hnd IH]; [constructor|].
  change (omap id (x :: l))
    with (match x with Some y => y :: omap id l | None => omap id l end).
  destruct x as [y|]; [|done]. constructor; [|done].
  rewrite list_elem_of_omap. intros ([z|] & Hz & [= ->]). done.
Qed.

Lemma NoDup_fmap_filter {A B} (f : A → B) (P : A → Prop)
    `{∀ a, Decision (P a)} (l : list A) :
  NoDup (f <$> l) → NoDup (f <$> filter P l).
Proof.
  induction l as [|a l IH]; [done|].
  rewrite fmap_cons, NoDup_cons. intros [Ha Hnd].
  rewrite filter_cons. destruct (decide (P a)); [|by apply IH].
  rewrite fmap_cons. constructor; [|by apply IH].
  rewrite list_elem_of_fmap. intros (b & Hb & Hin%list_elem_of_filter).
  apply Ha. rewrite Hb. apply list_elem_of_fmap. exists b. tauto.
Qed.

Lemma rows_of_brands_NoDup v vss :
  NoDup (vendor_brand <$> vss) →
  NoDup (BrandSalesSummary.Brand <$> rows_of v vss).
Proof.
  intros Hnd. apply (NoDup_fmap_1 (λ b, (v, b))).
  rewrite <- list_fmap_compose.
  assert ((λ b, (v, b)) ∘ BrandSalesSummary.Brand <$> rows_of v vss
          = vendor_brand <$> rows_of v vss) as ->.
  { apply list_fmap_ext. intros _ r [Hv _]%list_elem_of_lookup_2%elem_of_rows_of.
    unfold compose, vendor_brand. by rewrite Hv. }
  by apply NoDup_fmap_filter.
Qed.

(** X20.  [BrandCount] counts the distinct non-[NULL] brands on a vendor's
    rows, so it never exceeds the number of those rows.  When the
    purchases give every vendor number a single name, no brand repeats on
    a vendor's rows and [BrandCount] is the number of the vendor's rows
    that carry a brand. *)
Theorem rollup_brand_count s p inv v :
  let vss := select_vendor_sales_summary s p inv in
  v ∈ select_vendor_summary_by_vendor vss →
  let rows := rows_of (VendorRollup.VendorNumber v) vss in
  ∃ n : nat,
    VendorRollup.BrandCount v = Some (Sql.qc (Z.of_nat n))
    ∧ (n ≤ length rows)%nat
    ∧ ((∀ p1 p2, p1 ∈ p → p2 ∈ p →
          PurchaseRecord.VendorNumber p1 = PurchaseRecord.VendorNumber p2 →
          PurchaseRecord.VendorName p1 = PurchaseRecord.VendorName p2) →
       n = length (filter (λ r, is_Some (BrandSalesSummary.Brand r)) rows)).
Proof.
  intros vss Hv. destruct (rollup_row_sums vss v Hv) as (_ & _ & _ & _ & HB).
  cbv zeta in *. set (rows := rows_of (VendorRollup.VendorNumber v) vss) in *.
  eexists. split; [exact HB|]. split.
  - etrans; [apply length_remove_dups_le|].
    rewrite length_non_null. etrans; [apply length_filter|done].
  - intros Hname. rewrite remove_dups_NoDup; [apply length_non_null|].
    apply NoDup_non_null, rows_of_brands_NoDup. by apply vendor_brand_NoDup.
Qed.

Lemma rollup_brand_count_witness :
  ∃ v, head (select_vendor_summary_by_vendor Sample.summary) = Some v
       ∧ ∃ n : nat,
           VendorRollup.BrandCount v = Some (Sql.qc (Z.of_nat n))
           ∧ n = length (filter (λ r, is_Some (BrandSalesSummary.Brand r))
                           (rows_of (VendorRollup.VendorNumber v)
                              Sample.summary)).
Proof.
  eexists. split; [vm_compute; reflexivity|].
  edestruct (rollup_brand_count Sample.sales Sample.purchases
               Sample.vendor_invoice)
    as (n & Hn & _ & Hrows).
  - in_table.
  - exists n. split.
    + exact Hn.
    + apply Hrows. intros p1 p2 Hp1 Hp2 _.
      unfold Sample.purchases in Hp1, Hp2.
      rewrite !elem_of_cons, elem_of_nil in Hp1, Hp2.
      by destruct Hp1 as [->|[->|[]]], Hp2 as [->|[->|[]]].
Defined.

(** * The to-do list *)

Section TodoFacts.

Local Open Scope Z_scope.

Lemma seqZ_succ m (n : nat) :
  seqZ m (Z.of_nat (S n)) = m :: seqZ (m + 1) (Z.of_nat n).
Proof.
  rewrite seqZ_cons by lia. f_equal. f_equal; lia.
Qed.

Lemma filter_all_Z (k : Z) (l : list Todo.task) :
  (∀ t, t ∈ l → Todo.id t ≠ k) → filter (λ t, Todo.id t ≠ k) l = l.
Proof.
  induction l as [|a l IH]; intros Hall; [done|].
  rewrite filter_cons_True by (apply Hall; left).
  f_equal. apply IH. intros a' Ha'. apply Hall. by right.
Qed.

(** The ids handed out by [enumerate]. *)
Lemma imap_ids (b : Z) (l : list Todo.task) :
  Todo.id
  <$> imap (λ i t, {| Todo.id := Z.of_nat i + b;
                      Todo.title := Todo.title t;
                      Todo.done := Todo.done t |}) l
  = seqZ b (Z.of_nat (length l)).
Proof.
  revert b. induction l as [|t l IH]; intros b; [done|].
  cbn [length]. rewrite imap_cons, fmap_cons, seqZ_succ. cbn [Todo.id].
  f_equal.
  rewrite <- (IH (b + 1)). f_equal. apply imap_ext. intros i x _.
  unfold compose. f_equal. lia.
Qed.

Lemma imap_content {B} (f : Todo.task → B) (g : nat → Z) (l : list Todo.task) :
  (∀ i t, f {| Todo.id := i; Todo.title := Todo.title t;
               Todo.done := Todo.done t |} = f t) →
  f <$> imap (λ i t, {| Todo.id := g i;
                        Todo.title := Todo.title t;
                        Todo.done := Todo.done t |}) l
  = f <$> l.
Proof.
  intros Hf. revert g. induction l as [|t l IH]; intros g; [done|].
  rewrite imap_cons, !fmap_cons, Hf. f_equal. apply (IH (g ∘ S)).
Qed.

Lemma numbered_ids (a : Z) (l : list Todo.task) (t : Todo.task) :
  Todo.id <$> l = seqZ a (Z.of_nat (length l)) →
  t ∈ l → a ≤ Todo.id t < a + Z.of_nat (length l).
Proof.
  intros Hl Ht. apply elem_of_seqZ. rewrite <- Hl.
  by apply list_elem_of_fmap_2.
Qed.

(** Renumbering a list whose ids already count up from [a]. *)
Lemma imap_numbered (a b : Z) (l : list Todo.task) :
  Todo.id <$> l = seqZ a (Z.of_nat (length l)) →
  imap (λ i t, {| Todo.id := Z.of_nat i + b;
                  Todo.title := Todo.title t;
                  Todo.done := Todo.done t |}) l
  = (λ t, {| Todo.id := Todo.id t - a + b;
             Todo.title := Todo.title t;
             Todo.done := Todo.done t |}) <$> l.
Proof.
  revert a b. induction l as [|t l IH]; intros a b Hl; [done|].
  cbn [length] in Hl. rewrite seqZ_succ, fmap_cons in Hl.
  injection Hl as Ht Hl.
  rewrite imap_cons, fmap_cons. f_equal.
  - f_equal. lia.
  - rewrite <- (Forall_fmap_ext_1
                  (λ t, {| Todo.id := Todo.id t - (a + 1) + (b + 1);
                           Todo.title := Todo.title t;
                           Todo.done := Todo.done t |})).
    + rewrite <- (IH (a + 1) (b + 1) Hl). apply imap_ext. intros i x _.
      unfold compose. f_equal. lia.
    + apply Forall_forall. intros x _. f_equal. lia.
Qed.

Lemma renumber_numbered (l : list Todo.task) :
  Todo.numbered l → Todo.renumber l = l.
Proof.
  intros Hl. unfold Todo.renumber. rewrite (imap_numbered 1 1) by exact Hl.
  rewrite <- (list_fmap_id l) at 2. apply Forall_fmap_ext_1, Forall_forall.
  intros [i ti d] _. cbn. f_equal. lia.
Qed.

Lemma numbered_renumber (l : list Todo.task) :
  Todo.numbered (Todo.renumber l).
Proof.
  unfold Todo.numbered, Todo.renumber. by rewrite imap_ids, length_imap.
Qed.

(** Deleting from a list whose ids count up from [m]. *)
Lemma imap_filter_numbered (m k : Z) (l : list Todo.task) :
  Todo.id <$> l = seqZ m (Z.of_nat (length l)) →
  imap (λ i t, {| Todo.id := Z.of_nat i + m;
                  Todo.title := Todo.title t;
                  Todo.done := Todo.done t |})
       (filter (λ t, Todo.id t ≠ k) l)
  = (λ t, {| Todo.id := if decide (m ≤ k < Todo.id t)
                        then Todo.id t - 1 else Todo.id t;
             Todo.title := Todo.title t;
             Todo.done := Todo.done t |})
    <$> filter (λ t, Todo.id t ≠ k) l.
Proof.
  revert m. induction l as [|t l IH]; intros m Hl; [done|].
  cbn [length] in Hl. rewrite seqZ_succ, fmap_cons in Hl.
  injection Hl as Ht Hl.
  destruct (decide (Todo.id t = k)) as [Hk|Hk].
  - rewrite filter_cons_False by (intros H; by apply H).
    rewrite filter_all_Z.
    2:{ intros x Hx. pose proof (numbered_ids _ _ _ Hl Hx). lia. }
    rewrite (imap_numbered (m + 1) m) by exact Hl.
    apply Forall_fmap_ext_1, Forall_forall. intros x Hx.
    pose proof (numbered_ids _ _ _ Hl Hx).
    rewrite decide_True by lia. f_equal. lia.
  - rewrite filter_cons_True by done.
    rewrite imap_cons, fmap_cons. f_equal.
    + rewrite decide_False by lia. f_equal. lia.
    + rewrite <- (Forall_fmap_ext_1
                    (λ t, {| Todo.id := if decide (m + 1 ≤ k < Todo.id t)
                                        then Todo.id t - 1 else Todo.id t;
                             Todo.title := Todo.title t;
                             Todo.done := Todo.done t |})).
      * rewrite <- (IH (m + 1) Hl). apply imap_ext. intros i x _.
        unfold compose. f_equal. lia.
      * apply Forall_forall. intros x _. f_equal.
        destruct (decide (m + 1 ≤ k < Todo.id x)),
                 (decide (m ≤ k < Todo.id x)); lia.
Qed.

(** How many tasks a deletion leaves in a list whose ids count up from
    [m]. *)
Lemma length_filter_numbered (m k : Z) (l : list Todo.task) :
  Todo.id <$> l = seqZ m (Z.of_nat (length l)) →
  Z.of_nat (length (filter (λ t, Todo.id t ≠ k) l))
  = if decide (m ≤ k < m + Z.of_nat (length l))
    then Z.of_nat (length l) - 1 else Z.of_nat (length l).
Proof.
  revert m. induction l as [|t l IH]; intros m Hl.
  { cbn. rewrite decide_False by lia. done. }
  cbn [length] in Hl. rewrite seqZ_succ, fmap_cons in Hl.
  injection Hl as Ht Hl.
  destruct (decide (Todo.id t = k)) as [Hk|Hk].
  - rewrite filter_cons_False by (intros H; by apply H).
    rewrite filter_all_Z.
    2:{ intros x Hx. pose proof (numbered_ids _ _ _ Hl Hx). lia. }
    cbn [length]. rewrite decide_True by lia. lia.
  - rewrite filter_cons_True by done. cbn [length].
    rewrite !Nat2Z.inj_succ, (IH (m + 1) Hl).
    destruct (decide (m + 1 ≤ k < m + 1 + Z.of_nat (length l))),
             (decide (m ≤ k < m + Z.succ (Z.of_nat (length l)))); lia.
Qed.

(** The loop of [done_task]. *)
Lemma mark_done_None k l :
  k ∉ Todo.id <$> l → Todo.mark_done k l = None.
Proof.
  induction l as [|t l IH]; intros Hk; [done|].
  rewrite fmap_cons, not_elem_of_cons in Hk. destruct Hk as [Hk Hl].
  cbn. rewrite decide_False by done. by rewrite IH.
Qed.

Lemma mark_done_first k l1 t l2 :
  k ∉ Todo.id <$> l1 → Todo.id t = k →
  Todo.mark_done k (l1 ++ t :: l2)
  = Some (l1 ++ Todo.marked t :: l2, Todo.marked t).
Proof.
  intros Hk Ht. induction l1 as [|a l1 IH].
  - cbn. by rewrite decide_True.
  - rewrite fmap_cons, not_elem_of_cons in Hk. destruct Hk as [Hk Hl].
    cbn. rewrite decide_False by done. by rewrite IH.
Qed.

Lemma mark_done_ids k l l' t :
  Todo.mark_done k l = Some (l', t) → Todo.id <$> l' = Todo.id <$> l.
Proof.
  revert l' t. induction l as [|a l IH]; intros l' t H; [done|].
  cbn in H. destruct (decide (Todo.id a = k)).
  - by injection H as <- _.
  - destruct (Todo.mark_done k l) as [[r f]|]; [|done].
    cbn in H. injection H as <- _. rewrite !fmap_cons. f_equal.
    by apply (IH r f).
Qed.

Lemma first_with_id k (l : list Todo.task) :
  k ∈ Todo.id <$> l →
  ∃ l1 t l2, l = l1 ++ t :: l2 ∧ (k ∉ Todo.id <$> l1) ∧ Todo.id t = k.
Proof.
  induction l as [|a l IH]; intros Hk.
  { by apply elem_of_nil in Hk. }
  destruct (decide (Todo.id a = k)) as [Ha|Ha].
  - exists [], a, l. split_and!; [done| |done]. apply not_elem_of_nil.
  - rewrite fmap_cons, elem_of_cons in Hk. destruct Hk as [Hk|Hk]; [done|].
    destruct (IH Hk) as (l1 & t & l2 & -> & Hl1 & Ht).
    exists (a :: l1), t, l2. split_and!; [done| |done].
    rewrite fmap_cons, not_elem_of_cons. split; [by intros ->|done].
Qed.

Lemma numbered_add (l : list Todo.task) title :
  Todo.numbered l →
  Todo.numbered
    (l ++ [ {| Todo.id := Z.of_nat (length l) + 1;
               Todo.title := title;
               Todo.done := false |} ]).
Proof.
  unfold Todo.numbered. intros Hl.
  rewrite fmap_app, length_app, Hl. cbn [length fmap list_fmap Todo.id].
  rewrite Nat.add_1_r, seqZ_S. f_equal. f_equal. lia.
Qed.

Lemma main_numbered a DATA :
  Todo.numbered (Todo.load_tasks DATA) →
  Todo.numbered (Todo.load_tasks (Todo.main a DATA).1).
Proof.
  intros HD. destruct a as [title| |k|k]; cbn [Todo.main].
  - by apply numbered_add.
  - replace (Todo.list_tasks DATA).1 with DATA; [done|].
    unfold Todo.list_tasks. by destruct (Todo.load_tasks DATA).
  - unfold Todo.done_task.
    destruct (Todo.mark_done k (Todo.load_tasks DATA)) as [[l t]|] eqn:Hm;
      [|done].
    cbn. unfold Todo.numbered in *.
    rewrite (mark_done_ids _ _ _ _ Hm), HD.
    by rewrite <- (length_fmap Todo.id l), (mark_done_ids _ _ _ _ Hm),
      length_fmap.
  - apply numbered_renumber.
Qed.

(** X21.  [done_task] with an id that no task has prints "Task not found."
    and leaves the file as it is: it does not write it, and does not create
    it when it is missing.  Otherwise it sets [done] on the first task
    with that id and on no other, keeps every id, title and position,
    writes the list and prints that task's title. *)
Theorem done_task_outcome k DATA :
  (k ∉ Todo.id <$> Todo.load_tasks DATA →
   Todo.done_task k DATA = (DATA, ["Task not found."]))
  ∧ (∀ l1 t l2,
       Todo.load_tasks DATA = l1 ++ t :: l2 →
       k ∉ Todo.id <$> l1 → Todo.id t = k →
       Todo.done_task k DATA
       = (Some (l1 ++ Todo.marked t :: l2),
          ["Marked done: " +:+ Todo.title t]))
  ∧ (k ∈ Todo.id <$> Todo.load_tasks DATA →
     ∃ l1 t l2, Todo.load_tasks DATA = l1 ++ t :: l2
                ∧ (k ∉ Todo.id <$> l1) ∧ Todo.id t = k).
Proof.
  split_and!.
  - intros Hk. unfold Todo.done_task. by rewrite mark_done_None.
  - intros l1 t l2 Hl Hk Ht. unfold Todo.done_task.
    by rewrite Hl, mark_done_first.
  - apply first_with_id.
Qed.

Lemma done_task_outcome_witness :
  Todo.done_task 7 None = (None, ["Task not found."])
  ∧ Todo.done_task 3 (Some Todo.Sample.tasks)
    = (Some [ {| Todo.id := 1; Todo.title := "buy milk";
                 Todo.done := false |};
              {| Todo.id := 2; Todo.title := "call the vendor";
                 Todo.done := true |};
              {| Todo.id := 3; Todo.title := "file the invoices";
                 Todo.done := true |} ],
       ["Marked done: file the invoices"]).
Proof.
  split.
  - apply (proj1 (done_task_outcome 7 None)). apply not_elem_of_nil.
  - assert (Hk : 3 ∉ Todo.id <$> take 2 Todo.Sample.tasks).
    { intros H. repeat (apply elem_of_cons in H as [H|H]; [done|]).
      by apply elem_of_nil in H. }
    exact (proj1 (proj2 (done_task_outcome 3 (Some Todo.Sample.tasks)))
             (take 2 Todo.Sample.tasks)
             {| Todo.id := 3; Todo.title := "file the invoices";
                Todo.done := false |}
             [] eq_refl Hk eq_refl).
Defined.

(** X22.  [delete_task] always writes the file, also when no task has the
    id or the file was missing, and always prints "Deleted task <id>".
    Whatever ids the file held, the ids it writes are 1, 2, ... in list
    order; the tasks written are those whose id differs from the given
    one, in their old order, with titles and [done] flags unchanged. *)
Theorem delete_task_renumbers k DATA :
  ∃ tasks,
    Todo.delete_task k DATA = (Some tasks, ["Deleted task " +:+ pretty k])
    ∧ Todo.numbered tasks
    ∧ (λ t, (Todo.title t, Todo.done t)) <$> tasks
      = (λ t, (Todo.title t, Todo.done t))
        <$> filter (λ t, Todo.id t ≠ k) (Todo.load_tasks DATA).
Proof.
  eexists. split_and!; [reflexivity|apply numbered_renumber|].
  unfold Todo.renumber. by apply imap_content.
Qed.

(** X23.  On a list numbered 1..n, [delete_task k] with 1 <= k <= n removes
    exactly one task, and every task behind it moves up: its id drops by
    one, so the ids of the remaining tasks are not stable.  With any other
    [k] the list written is the list read. *)
Theorem delete_task_moves_up k tasks :
  Todo.numbered tasks →
  (Todo.delete_task k (Some tasks)).1
  = Some (Todo.moved_up k <$> filter (λ t, Todo.id t ≠ k) tasks)
  ∧ (1 ≤ k ≤ Z.of_nat (length tasks) →
     Z.of_nat (length (filter (λ t, Todo.id t ≠ k) tasks))
     = Z.of_nat (length tasks) - 1)
  ∧ (¬ 1 ≤ k ≤ Z.of_nat (length tasks) →
     (Todo.delete_task k (Some tasks)).1 = Some tasks).
Proof.
  intros Hn. assert (Hfst : (Todo.delete_task k (Some tasks)).1
    = Some (Todo.moved_up k <$> filter (λ t, Todo.id t ≠ k) tasks)).
  { cbn. unfold Todo.save_tasks, Todo.renumber. f_equal.
    by rewrite (imap_filter_numbered 1 k tasks Hn). }
  split_and!; [done| |].
  - intros Hk. rewrite (length_filter_numbered 1 k tasks Hn).
    by rewrite decide_True by lia.
  - intros Hk. rewrite Hfst. f_equal.
    rewrite filter_all_Z.
    2:{ intros x Hx. pose proof (numbered_ids _ _ _ Hn Hx). lia. }
    rewrite <- (list_fmap_id tasks) at 2.
    apply Forall_fmap_ext_1, Forall_forall. intros [i ti d] Hx.
    pose proof (numbered_ids _ _ _ Hn Hx) as Hi. cbn in Hi.
    unfold Todo.moved_up. cbn. by rewrite decide_False by lia.
Qed.

Lemma delete_task_moves_up_witness :
  Todo.numbered Todo.Sample.tasks
  ∧ (Todo.delete_task 2 (Some Todo.Sample.tasks)).1
    = Some [ {| Todo.id := 1; Todo.title := "buy milk";
                Todo.done := false |};
             {| Todo.id := 2; Todo.title := "file the invoices";
                Todo.done := false |} ].
Proof.
  assert (Hn : Todo.numbered Todo.Sample.tasks) by reflexivity.
  split; [exact Hn|].
  exact (proj1 (delete_task_moves_up 2 Todo.Sample.tasks Hn)).
Defined.

(** X24.  On a numbered list, adding a task and then deleting the id it
    was given writes back the list as it was before the two commands (a
    missing file is then an empty list on disk). *)
Theorem add_then_delete title DATA :
  Todo.numbered (Todo.load_tasks DATA) →
  (Todo.delete_task (Z.of_nat (length (Todo.load_tasks DATA)) + 1)
     (Todo.add_task title DATA).1).1
  = Some (Todo.load_tasks DATA).
Proof.
  intros Hn. cbn. unfold Todo.save_tasks. f_equal.
  rewrite filter_app, filter_all_Z.
  2:{ intros x Hx. pose proof (numbered_ids _ _ _ Hn Hx). lia. }
  rewrite filter_cons_False by (intros H; by apply H).
  rewrite filter_nil, app_nil_r. by apply renumber_numbered.
Qed.

Lemma add_then_delete_witness :
  Todo.numbered (Todo.load_tasks (Some Todo.Sample.tasks))
  ∧ (Todo.delete_task 4
       (Todo.add_task "pay the freight" (Some Todo.Sample.tasks)).1).1
    = Some Todo.Sample.tasks.
Proof.
  assert (Hn : Todo.numbered (Todo.load_tasks (Some Todo.Sample.tasks)))
    by reflexivity.
  split; [exact Hn|].
  exact (add_then_delete "pay the freight" (Some Todo.Sample.tasks) Hn).
Defined.

(** X25.  Starting from a missing file, or from one whose ids are 1..n in
    order, every sequence of invocations of the script leaves a file whose
    ids are again 1..n in order; in particular no two tasks ever share an
    id. *)
Theorem ids_stay_numbered cmds DATA :
  Todo.numbered (Todo.load_tasks DATA) →
  Todo.numbered (Todo.load_tasks (Todo.runs cmds DATA))
  ∧ NoDup (Todo.id <$> Todo.load_tasks (Todo.runs cmds DATA)).
Proof.
  intros Hn.
  assert (H : Todo.numbered (Todo.load_tasks (Todo.runs cmds DATA))).
  { revert DATA Hn. induction cmds as [|a cmds IH]; intros DATA Hn; [done|].
    cbn. apply IH. by apply main_numbered. }
  split; [done|]. rewrite H. apply NoDup_seqZ.
Qed.

Lemma ids_stay_numbered_witness :
  Todo.numbered (Todo.load_tasks None)
  ∧ Todo.numbered
      (Todo.load_tasks
         (Todo.runs [Todo.cmd_add ["buy"; "milk"]; Todo.cmd_add ["call"];
                     Todo.cmd_done 2; Todo.cmd_del 1; Todo.cmd_add ["pay"]]
                    None)).
Proof.
  assert (Hn : Todo.numbered (Todo.load_tasks None)) by reflexivity.
  split; [exact Hn|].
  exact (proj1 (ids_stay_numbered _ None Hn)).
Defined.

(** X26.  [done_task] is idempotent on the file: marking the same id a
    second time writes what the first time wrote, and where the first
    time found no task and left the file alone, so does the second. *)
Theorem done_task_twice k DATA :
  (Todo.done_task k (Todo.done_task k DATA).1).1 = (Todo.done_task k DATA).1.
Proof.
  destruct (decide (k ∈ Todo.id <$> Todo.load_tasks DATA)) as [Hk|Hk].
  - destruct (first_with_id _ _ Hk) as (l1 & t & l2 & Hl & Hl1 & Ht).
    unfold Todo.done_task at 2 3. rewrite Hl, mark_done_first by done.
    unfold Todo.done_task, Todo.save_tasks, Todo.load_tasks. cbn [fst].
    by rewrite (mark_done_first k l1 (Todo.marked t) l2).
  - unfold Todo.done_task at 2 3. rewrite mark_done_None by done.
    unfold Todo.done_task. by rewrite mark_done_None.
Qed.

End TodoFacts.
